(** * The tutorial hint presenter of [assets/Tutorial.ts]

    A shallow embedding of the [Tutorial] component: its configuration and
    private fields, the hint request API ([showHint], [showCustomHint],
    [showInactivityHint], [showStartHint], [stop]), the inactivity monitor
    ([checkInactivity]) and the promise-chained animation sequencer
    ([playHintAnimation], [animateHandThroughTargets], [playPressAnimation]).

    JavaScript numbers are IEEE 754 binary64 values; they are embedded as
    Rocq's primitive floats, whose operations are the same binary64
    operations.  Promises are embedded in continuation-passing style: a
    pending reaction is a first-order value ([Microtask], [Callback]) held in
    the queues of the event loop, and the loop is the function [step]. *)

From Stdlib Require Import PrimFloat String List Bool Arith Lia.
Import ListNotations.
Set Warnings "-inexact-float".

Local Open Scope string_scope.
Local Open Scope list_scope.

(** ** Data model *)

(** [export enum HintType], with the numeric values of the source. *)
Inductive HintType : Set :=
| START_GAME
| INACTIVITY
| MISSION_FAIL
| CUSTOM.

Definition HintType_value (t : HintType) : nat :=
  match t with
  | START_GAME => 0
  | INACTIVITY => 1
  | MISSION_FAIL => 2
  | CUSTOM => 3
  end.

Definition HintType_members : list HintType :=
  [START_GAME; INACTIVITY; MISSION_FAIL; CUSTOM].

(** The hint types that the specification's data model enumerates for a
    hint session ("StartGame, Inactivity, Custom"); written from the
    specification's words, to be compared with [HintType_members]. *)
Definition spec_hint_types : list HintType :=
  [START_GAME; INACTIVITY; CUSTOM].

Definition HintType_eqb (a b : HintType) : bool :=
  Nat.eqb (HintType_value a) (HintType_value b).

(** [Vec3] of the engine: three numbers. *)
Module Vec3.
Record t : Set := new { x : float; y : float; z : float }.
Definition clone (v : t) : t := new (x v) (y v) (z v).
End Vec3.

(** The scene actor behind [this.hand]: the part of a [Node] that the
    component reads or writes. *)
Module Node.
Record t : Set := make
  { active : bool;
    worldPosition : Vec3.t;
    scale : Vec3.t }.
Definition setActive (b : bool) (n : t) : t :=
  make b (worldPosition n) (scale n).
Definition setWorldPosition (p : Vec3.t) (n : t) : t :=
  make (active n) p (scale n).
Definition setScale (v : Vec3.t) (n : t) : t :=
  make (active n) (worldPosition n) v.
End Node.

(** [export interface TutorialTarget].  The [node] of a target is a weak
    reference that the component never dereferences: an opaque identifier,
    absent for targets made from positions. *)
Record TutorialTarget : Set := mkTarget
  { node : option nat;
    worldPosition : Vec3.t;
    isValid : bool }.

(** What a promise is rejected with: the string of [reject('...')] or the
    [TypeError] of a property access on [null]. *)
Inductive JsError : Set :=
| Reason (msg : string)
| TypeError (msg : string).

(** The [.then(...).catch(...)] pair that a [show*Hint] function attaches
    to [playHintAnimation]: both callbacks clear the flag and emit
    [HINT_END] with [on_type]; the second first logs [on_label]. *)
Record Handlers : Set := mkHandlers
  { on_type : HintType;
    on_label : string }.

(** The closure of one [animateHandThroughTargets] call: its [targets], the
    captured variable [currentIndex], and the handlers waiting on the
    promise chain that its [resolve] settles. *)
Record Anim : Set := mkAnim
  { anim_targets : list TutorialTarget;
    currentIndex : nat;
    anim_owner : Handlers }.

(** Jobs of the promise job queue. *)
Inductive Microtask : Set :=
| AwaitResume (k : Handlers)            (* rest of playHintAnimation after [await] *)
| ThenJob (k : Handlers)                (* the [.then] callback of a show function *)
| RejectForward (k : Handlers) (e : JsError) (* rejection passing through [.then] *)
| CatchJob (k : Handlers) (e : JsError) (* the [.catch] callback of a show function *)
| PressThen (a : Anim).                 (* [playPressAnimation().then(...)] *)

(** Callbacks handed to the engine. *)
Inductive Callback : Set :=
| CallPress (a : Anim)          (* [.call] of the move tween *)
| CallResolvePress (a : Anim)   (* [.call(() => resolve())] of the press tween *)
| CallAnimateNext (a : Anim).   (* the [scheduleOnce] callback *)

Inductive TweenProp : Set :=
| PropWorldPosition (p : Vec3.t)
| PropScale (v : Vec3.t).

(** One link of a [tween(...)] builder chain. *)
Inductive TweenAction : Set :=
| To (duration : float) (prop : TweenProp)
| Delay (duration : float)
| Call (cb : Callback).

(** A tween on the pointer actor: its remaining actions.  Every tween of
    the component is built by [tween(this.hand)]. *)
Definition Tween : Set := list TweenAction.

Record Timer : Set := mkTimer
  { timer_delay : float;
    timer_callback : Callback }.

Inductive Level : Set := LOG | WARN | ERROR.

(** Arguments of a console call; the pieces of a template literal are
    listed in order. *)
Inductive Arg : Set :=
| AStr (s : string)
| ANum (n : float)
| ALen (n : nat)
| AType (t : HintType)
| AVec (v : Vec3.t)
| AErr (e : JsError).

(** What the component does to the outside, in program order. *)
Inductive Effect : Set :=
| Emit (event : string) (payload : option HintType)
| Console (lvl : Level) (args : list Arg)
| TweenStart (tw : Tween)
| TweenStop.

Definition HINT_START : string := "hint-start".
Definition HINT_END : string := "hint-end".
Definition PLAYER_INACTIVE : string := "player-inactive".

(** The [@property] fields. *)
Record Props : Set := mkProps
  { handPrefab : option Node.t;
    inactivityDelay : float;
    handScale : Vec3.t;
    handOffset : Vec3.t;
    pressAnimationScale : float;
    pressAnimationDuration : float;
    moveSpeed : float }.

(** The queues of the engine and of the JavaScript event loop. *)
Record Engine : Set := mkEngine
  { microtasks : list Microtask;
    tweens : list Tween;
    timers : list Timer;
    ticking : bool }.

(** The component together with the engine state it depends on and the
    effects it has produced so far (latest last). *)
Record State : Set := mkState
  { props : Props;
    hand : option Node.t;
    inactivityTime : float;
    isActive : bool;
    isReady : bool;
    inactivityCheck : bool;
    engine : Engine;
    trace : list Effect }.

(** Field initialisers of the class, for a component whose prefab slot
    holds [prefab]. *)
Definition initial (prefab : option Node.t) : State :=
  {| props :=
       {| handPrefab := prefab;
          inactivityDelay := 15;
          handScale := Vec3.new 1 1 1;
          handOffset := Vec3.new 0 0 0;
          pressAnimationScale := 1.2;
          pressAnimationDuration := 0.1;
          moveSpeed := 0.5 |};
     hand := None;
     inactivityTime := 0;
     isActive := false;
     isReady := false;
     inactivityCheck := false;
     engine := {| microtasks := []; tweens := []; timers := []; ticking := false |};
     trace := [] |}.

(** ** Field updates *)

Definition set_props (p : Props) (s : State) : State :=
  mkState p (hand s) (inactivityTime s) (isActive s) (isReady s)
          (inactivityCheck s) (engine s) (trace s).
Definition set_hand (h : option Node.t) (s : State) : State :=
  mkState (props s) h (inactivityTime s) (isActive s) (isReady s)
          (inactivityCheck s) (engine s) (trace s).
Definition set_inactivityTime (n : float) (s : State) : State :=
  mkState (props s) (hand s) n (isActive s) (isReady s)
          (inactivityCheck s) (engine s) (trace s).
Definition set_isActive (b : bool) (s : State) : State :=
  mkState (props s) (hand s) (inactivityTime s) b (isReady s)
          (inactivityCheck s) (engine s) (trace s).
Definition set_isReady (b : bool) (s : State) : State :=
  mkState (props s) (hand s) (inactivityTime s) (isActive s) b
          (inactivityCheck s) (engine s) (trace s).
Definition set_inactivityCheck (b : bool) (s : State) : State :=
  mkState (props s) (hand s) (inactivityTime s) (isActive s) (isReady s)
          b (engine s) (trace s).
Definition set_engine (e : Engine) (s : State) : State :=
  mkState (props s) (hand s) (inactivityTime s) (isActive s) (isReady s)
          (inactivityCheck s) e (trace s).
Definition set_trace (t : list Effect) (s : State) : State :=
  mkState (props s) (hand s) (inactivityTime s) (isActive s) (isReady s)
          (inactivityCheck s) (engine s) t.

Definition set_microtasks (q : list Microtask) (e : Engine) : Engine :=
  mkEngine q (tweens e) (timers e) (ticking e).
Definition set_tweens (q : list Tween) (e : Engine) : Engine :=
  mkEngine (microtasks e) q (timers e) (ticking e).
Definition set_timers (q : list Timer) (e : Engine) : Engine :=
  mkEngine (microtasks e) (tweens e) q (ticking e).
Definition set_ticking (b : bool) (e : Engine) : Engine :=
  mkEngine (microtasks e) (tweens e) (timers e) b.

Definition set_inactivityDelay (n : float) (p : Props) : Props :=
  mkProps (handPrefab p) n (handScale p) (handOffset p)
          (pressAnimationScale p) (pressAnimationDuration p) (moveSpeed p).
Definition set_handScale (v : Vec3.t) (p : Props) : Props :=
  mkProps (handPrefab p) (inactivityDelay p) v (handOffset p)
          (pressAnimationScale p) (pressAnimationDuration p) (moveSpeed p).
Definition set_handOffset (v : Vec3.t) (p : Props) : Props :=
  mkProps (handPrefab p) (inactivityDelay p) (handScale p) v
          (pressAnimationScale p) (pressAnimationDuration p) (moveSpeed p).

(** ** The external collaborators *)

Definition effect (e : Effect) (s : State) : State :=
  set_trace (trace s ++ [e]) s.

(** [this.node.emit(name, payload)]. *)
Definition emit (event : string) (payload : option HintType) : State -> State :=
  effect (Emit event payload).

Definition console (lvl : Level) (args : list Arg) : State -> State :=
  effect (Console lvl args).

(** Queueing a promise reaction job. *)
Definition enqueue (m : Microtask) (s : State) : State :=
  set_engine (set_microtasks (microtasks (engine s) ++ [m]) (engine s)) s.

(** [tween(this.hand)....start()]. *)
Definition tween_start (tw : Tween) (s : State) : State :=
  effect (TweenStart tw)
    (set_engine (set_tweens (tweens (engine s) ++ [tw]) (engine s)) s).

(** Modelled from the spec: the tween engine's "cancel all running
    animations on a given actor", which is what the component asks of it by
    [tween(this.hand).stop()].  Every tween of the model runs on the
    pointer actor, so none is left. *)
Definition tween_stop (s : State) : State :=
  effect TweenStop (set_engine (set_tweens [] (engine s)) s).

(** [this.scheduleOnce(cb, delay)]. *)
Definition scheduleOnce (cb : Callback) (delay : float) (s : State) : State :=
  set_engine (set_timers (timers (engine s) ++ [mkTimer delay cb]) (engine s)) s.

(** [this.hand.active = b], for a pointer actor that exists. *)
Definition hand_setActive (b : bool) (h : Node.t) (s : State) : State :=
  set_hand (Some (Node.setActive b h)) s.

(** ** The animation sequencer *)

(** [new Vec3(worldPos.x + this.handOffset.x, worldPos.y + this.handOffset.y,
    worldPos.z + this.handOffset.z)], as the source writes it at each of
    its three uses. *)
Definition offsetPosition (s : State) (worldPos : Vec3.t) : Vec3.t :=
  Vec3.new (Vec3.x worldPos + Vec3.x (handOffset (props s)))
           (Vec3.y worldPos + Vec3.y (handOffset (props s)))
           (Vec3.z worldPos + Vec3.z (handOffset (props s))).

(** [playPressAnimation()]; [a] is the closure of the [.then] callback
    that the caller attaches to the returned promise. *)
Definition playPressAnimation (a : Anim) (s : State) : State :=
  let originalScale := Vec3.clone (handScale (props s)) in
  let pressedScale :=
    Vec3.new (Vec3.x originalScale * pressAnimationScale (props s))
             (Vec3.y originalScale * pressAnimationScale (props s))
             (Vec3.z originalScale) in
  tween_start
    [To (pressAnimationDuration (props s)) (PropScale pressedScale);
     To (pressAnimationDuration (props s)) (PropScale originalScale);
     Delay 0.3;
     Call (CallResolvePress a)] s.

(** [currentIndex++]. *)
Definition advance (a : Anim) : Anim :=
  mkAnim (anim_targets a) (S (currentIndex a)) (anim_owner a).

(** The inner function [animateNextTarget] of [animateHandThroughTargets].
    It calls itself on an invalid target; [fuel] bounds these calls by the
    number of targets left. *)
Fixpoint animateNextTarget_from (fuel : nat) (a : Anim) (s : State) : State :=
  match nth_error (anim_targets a) (currentIndex a) with
  | None =>
      (* currentIndex >= targets.length: resolve() *)
      enqueue (AwaitResume (anim_owner a)) s
  | Some target =>
      if negb (isValid target) then
        match fuel with
        | 0 => s
        | S fuel' => animateNextTarget_from fuel' (advance a) s
        end
      else
        let worldPos := worldPosition target in
        let targetPosition := offsetPosition s worldPos in
        tween_start
          [To (moveSpeed (props s)) (PropWorldPosition targetPosition);
           Call (CallPress a)] s
  end.

Definition animateNextTarget (a : Anim) (s : State) : State :=
  animateNextTarget_from (length (anim_targets a) - currentIndex a) a s.

(** The rejection of the promise of [playHintAnimation]: the handlers were
    attached by [.then(f).catch(g)], so the rejection first passes the
    promise derived by [.then]. *)
Definition reject (k : Handlers) (e : JsError) : State -> State :=
  enqueue (RejectForward k e).

Definition null_hand : JsError := TypeError "this.hand is null".

(** [animateHandThroughTargets(targets)], awaited by [playHintAnimation]
    on behalf of the handlers [k].  An exception of the executor rejects
    the promise, which the [await] rethrows into the [catch] of
    [playHintAnimation]. *)
Definition animateHandThroughTargets
    (targets : list TutorialTarget) (k : Handlers) (s : State) : State :=
  match targets with
  | [] => enqueue (AwaitResume k) s
  | firstTarget :: _ =>
      if negb (isValid firstTarget) then enqueue (AwaitResume k) s
      else
        let firstPos := worldPosition firstTarget in
        let firstTargetPos := offsetPosition s firstPos in
        match hand s with
        | None => reject k null_hand s
        | Some h =>
            let s := set_hand (Some (Node.setWorldPosition firstTargetPos h)) s in
            scheduleOnce (CallAnimateNext (mkAnim targets 0 k)) 0.5 s
        end
  end.

(** [playHintAnimation(targets)], up to its [await]. *)
Definition playHintAnimation
    (targets : list TutorialTarget) (k : Handlers) (s : State) : State :=
  if (length targets <? 1)%nat then reject k (Reason "No valid targets provided") s
  else
    let hintTargets := firstn 3 targets in
    match hand s with
    | None => reject k null_hand s
    | Some h =>
        let s := hand_setActive true h s in
        animateHandThroughTargets hintTargets k s
    end.

Definition playCustomHintAnimation
    (targets : list TutorialTarget) (k : Handlers) (s : State) : State :=
  playHintAnimation targets k s.

(** ** The event loop *)

Definition run_callback (cb : Callback) (s : State) : State :=
  match cb with
  | CallPress a => playPressAnimation a s
  | CallResolvePress a => enqueue (PressThen a) s
  | CallAnimateNext a => animateNextTarget a s
  end.

Definition run_microtask (m : Microtask) (s : State) : State :=
  match m with
  | AwaitResume k =>
      (* this.hand.active = false; resolve() *)
      match hand s with
      | None => reject k null_hand s
      | Some h => enqueue (ThenJob k) (hand_setActive false h s)
      end
  | ThenJob k =>
      emit HINT_END (Some (on_type k)) (set_isActive false s)
  | RejectForward k e => enqueue (CatchJob k e) s
  | CatchJob k e =>
      let s := console ERROR [AStr (on_label k); AErr e] s in
      emit HINT_END (Some (on_type k)) (set_isActive false s)
  | PressThen a =>
      (* currentIndex++; animateNextTarget() *)
      animateNextTarget (advance a) s
  end.

(** Modelled from the spec: the tween engine "schedules a property
    interpolation over a duration with a completion callback": when a [To]
    action has run, the property of the actor has the value given. *)
Definition apply_prop (p : TweenProp) (s : State) : State :=
  match hand s with
  | None => s
  | Some h =>
      match p with
      | PropWorldPosition v => set_hand (Some (Node.setWorldPosition v h)) s
      | PropScale v => set_hand (Some (Node.setScale v h)) s
      end
  end.

Definition run_action (act : TweenAction) (s : State) : State :=
  match act with
  | To _ p => apply_prop p s
  | Delay _ => s
  | Call cb => run_callback cb s
  end.

(** One turn of the loop: the oldest promise job if there is one, else the
    next action of the oldest running tween, else the oldest one-shot
    timer.  Durations are carried by the actions and the timers; the loop
    only orders what is pending.  [None] when nothing is pending. *)
Definition step (s : State) : option State :=
  match microtasks (engine s) with
  | m :: q => Some (run_microtask m (set_engine (set_microtasks q (engine s)) s))
  | [] =>
      match tweens (engine s) with
      | [] :: tws => Some (set_engine (set_tweens tws (engine s)) s)
      | (act :: rest) :: tws =>
          let left := match rest with [] => tws | _ :: _ => rest :: tws end in
          Some (run_action act (set_engine (set_tweens left (engine s)) s))
      | [] =>
          match timers (engine s) with
          | t :: ts =>
              Some (run_callback (timer_callback t)
                      (set_engine (set_timers ts (engine s)) s))
          | [] => None
          end
      end
  end.

Fixpoint run (fuel : nat) (s : State) : State :=
  match fuel with
  | 0 => s
  | S n => match step s with
           | None => s
           | Some s' => run n s'
           end
  end.

(** Nothing is pending. *)
Definition quiescent (s : State) : Prop :=
  microtasks (engine s) = [] /\ tweens (engine s) = [] /\ timers (engine s) = [].

(** ** The public API and the inactivity monitor *)

Definition getDefaultTargets (s : State) : list TutorialTarget * State :=
  ([], console WARN
         [AStr "No default targets implemented. Use setCustomTargets() or provide targets parameter."] s).

(** [targets || this.getDefaultTargets()]: an array, empty or not, is
    truthy. *)
Definition resolveTargets (targets : option (list TutorialTarget)) (s : State)
  : list TutorialTarget * State :=
  match targets with
  | Some ts => (ts, s)
  | None => getDefaultTargets s
  end.

Definition showCustomHint
    (targets : list TutorialTarget) (hintType : option HintType) (s : State) : State :=
  let hintType := match hintType with Some t => t | None => CUSTOM end in
  if isActive s then s
  else
    let s := console LOG [AStr "Showing custom hint with"; ALen (length targets); AStr "targets"] s in
    let s := set_isActive true s in
    let s := emit HINT_START (Some hintType) s in
    playCustomHintAnimation targets (mkHandlers hintType "Custom hint error:") s.

Definition showInactivityHint
    (targets : option (list TutorialTarget)) (s : State) : State :=
  if isActive s then s
  else
    let (hintTargets, s) := resolveTargets targets s in
    if (length hintTargets =? 0)%nat then
      console WARN [AStr "No targets available for inactivity hint"] s
    else
      let s := console LOG [AStr "Showing inactivity hint"] s in
      let s := set_isActive true s in
      let s := emit HINT_START (Some INACTIVITY) s in
      playHintAnimation hintTargets (mkHandlers INACTIVITY "Inactivity hint error:") s.

Definition showStartHint
    (targets : option (list TutorialTarget)) (s : State) : State :=
  if isActive s then s
  else
    let (hintTargets, s) := resolveTargets targets s in
    if (length hintTargets =? 0)%nat then
      console WARN [AStr "No targets available for start hint"] s
    else
      let s := console LOG [AStr "Showing start hint"] s in
      let s := set_isActive true s in
      let s := emit HINT_START (Some START_GAME) s in
      playHintAnimation hintTargets (mkHandlers START_GAME "Start hint error:") s.

Definition showHint
    (hintType : option HintType) (targets : option (list TutorialTarget))
    (s : State) : State :=
  let hintType := match hintType with Some t => t | None => INACTIVITY end in
  if isActive s then s
  else
    match hintType with
    | START_GAME => showStartHint targets s
    | INACTIVITY => showInactivityHint targets s
    | CUSTOM =>
        showCustomHint (match targets with Some ts => ts | None => [] end) None s
    | MISSION_FAIL =>
        console WARN [AStr "Hint type "; AType hintType; AStr " not implemented"] s
    end.

Definition isShowingHint (s : State) : bool := isActive s.

Definition resetInactivityTimer (s : State) : State :=
  set_inactivityTime 0 s.

Definition checkInactivity (s : State) : State :=
  if isActive s || negb (isReady s) then s
  else
    let s := set_inactivityTime (inactivityTime s + 1) s in
    if (inactivityDelay (props s) <=? inactivityTime s)%float then
      let s := console LOG [AStr "Player inactive for "; ANum (inactivityTime s); AStr " seconds"] s in
      let s := emit PLAYER_INACTIVE None s in
      let s := showInactivityHint None s in
      resetInactivityTimer s
    else s.

Definition setInactivityDelay (seconds : float) (s : State) : State :=
  resetInactivityTimer (set_props (set_inactivityDelay seconds (props s)) s).

Definition setHandScale (v : Vec3.t) (s : State) : State :=
  let s := set_props (set_handScale v (props s)) s in
  match hand s with
  | Some h => set_hand (Some (Node.setScale v h)) s
  | None => s
  end.

Definition setHandOffset (offset : Vec3.t) (s : State) : State :=
  console LOG [AStr "Hand offset updated to:"; AVec offset]
    (set_props (set_handOffset offset (props s)) s).

Definition stop (s : State) : State :=
  if isActive s then
    let s := tween_stop s in
    let s := match hand s with
             | Some h => hand_setActive false h s
             | None => s
             end in
    let s := set_isActive false s in
    emit HINT_END None s
  else s.

Definition testHandPosition (target : TutorialTarget) (s : State) : State :=
  match hand s with
  | None => s
  | Some h =>
      if negb (isValid target) then s
      else
        let worldPos := worldPosition target in
        let targetPosition := offsetPosition s worldPos in
        let s := hand_setActive true h s in
        let s := match hand s with
                 | Some h => set_hand (Some (Node.setWorldPosition targetPosition h)) s
                 | None => s
                 end in
        console LOG [AStr "Hand position test:"; AVec worldPos;
                     AVec (handOffset (props s)); AVec targetPosition] s
  end.

Definition createHand (s : State) : State :=
  match handPrefab (props s) with
  | None => console WARN [AStr "Hand prefab not assigned"] s
  | Some prefab =>
      let h := Node.setScale (handScale (props s)) (Node.setActive false prefab) in
      console LOG [AStr "Tutorial hand created with scale:"; AVec (handScale (props s));
                   AStr "and offset:"; AVec (handOffset (props s))]
        (set_hand (Some h) s)
  end.

(** Modelled from the spec: the periodic scheduler "registers a repeating
    callback at a fixed interval, unregisters by handle"; the handle kept in
    [inactivityCheck] is modelled by whether a registration was made. *)
Definition startInactivityCheck (s : State) : State :=
  let s := if inactivityCheck s
           then set_engine (set_ticking false (engine s)) s else s in
  let s := set_inactivityTime 0 s in
  set_inactivityCheck true (set_engine (set_ticking true (engine s)) s).

Definition setup (s : State) : State :=
  if isReady s then s
  else
    let s := createHand s in
    let s := startInactivityCheck s in
    let s := set_isReady true s in
    console LOG [AStr "Tutorial ready with hand scale:"; AVec (handScale (props s));
                 AStr "and offset:"; AVec (handOffset (props s))] s.

(** Helper functions of the module. *)
Definition createTargetsFromPositions (positions : list Vec3.t) : list TutorialTarget :=
  map (fun position => mkTarget None position true) positions.

(** [start()], the engine's lifecycle hook. *)
Definition start (s : State) : State := setup s.

Definition set_pressAnimationScale (n : float) (p : Props) : Props :=
  mkProps (handPrefab p) (inactivityDelay p) (handScale p) (handOffset p)
          n (pressAnimationDuration p) (moveSpeed p).
Definition set_moveSpeed (n : float) (p : Props) : Props :=
  mkProps (handPrefab p) (inactivityDelay p) (handScale p) (handOffset p)
          (pressAnimationScale p) (pressAnimationDuration p) n.

Definition setHandScaleUniform (scale : float) (s : State) : State :=
  setHandScale (Vec3.new scale scale scale) s.

Definition getHandScale (s : State) : Vec3.t :=
  Vec3.clone (handScale (props s)).

Definition setHandOffsetXY (x y : float) (s : State) : State :=
  let s := set_props
             (set_handOffset (Vec3.new x y (Vec3.z (handOffset (props s)))) (props s))
             s in
  console LOG [AStr "Hand offset updated to:"; AVec (handOffset (props s))] s.

Definition getHandOffset (s : State) : Vec3.t :=
  Vec3.clone (handOffset (props s)).

Definition setPressAnimationScale (scale : float) (s : State) : State :=
  set_props (set_pressAnimationScale scale (props s)) s.

Definition setMoveSpeed (speed : float) (s : State) : State :=
  set_props (set_moveSpeed speed (props s)) s.

(** A scene node as [createTargetsFromNodes] reads it: its identity, its
    world position and its [isValid] flag. *)
Record SceneNode : Set := mkSceneNode
  { node_id : nat;
    node_worldPosition : Vec3.t;
    node_isValid : bool }.

(** [createTargetsFromNodes(nodes)].  An element of the array may be
    [null] at run time (the source tests [node && node.isValid]); reading
    [node.worldPosition] of such an element throws before that test is
    reached, and [Array.prototype.map] passes the exception on. *)
Fixpoint createTargetsFromNodes (nodes : list (option SceneNode))
  : JsError + list TutorialTarget :=
  match nodes with
  | [] => inr []
  | None :: _ => inl (TypeError "node is null")
  | Some n :: rest =>
      match createTargetsFromNodes rest with
      | inl e => inl e
      | inr targets =>
          inr (mkTarget (Some (node_id n)) (node_worldPosition n) (node_isValid n)
                 :: targets)
      end
  end.

(** ** Observations on a trace *)

Definition is_emit (e : Effect) : bool :=
  match e with Emit _ _ => true | _ => false end.

(** The events emitted on the component's node, in order. *)
Definition emitted (t : list Effect) : list Effect := filter is_emit t.

(** The world position that a tween start moves the pointer towards, if
    it is a move tween. *)
Definition move_of (e : Effect) : list Vec3.t :=
  match e with
  | TweenStart (To _ (PropWorldPosition p) :: _) => [p]
  | _ => []
  end.

(** The world positions that move tweens were started towards, in order. *)
Definition moves (t : list Effect) : list Vec3.t := flat_map move_of t.

Definition is_press (e : Effect) : bool :=
  match e with
  | TweenStart (To _ (PropScale _) :: _) => true
  | _ => false
  end.

(** The number of press tweens started. *)
Definition presses (t : list Effect) : nat := length (filter is_press t).

Definition a_ready_component : State :=
  setup (initial (Some (Node.make true (Vec3.new 0 0 0) (Vec3.new 1 1 1)))).

Definition sample_targets : list TutorialTarget :=
  createTargetsFromPositions
    [Vec3.new 5 0 5; Vec3.new 1 2 3; Vec3.new 4 4 4; Vec3.new 9 9 9; Vec3.new 7 7 7].

(** ** Requests while a session is active *)

Definition an_active_session : State :=
  showCustomHint sample_targets None a_ready_component.

(** The same session once the settle delay has passed: the first move
    tween is running. *)
Definition a_moving_pointer : State := run 1 an_active_session.

(** ** Expected states and observations used by the theorems *)

Definition not_implemented (t : HintType) : Effect :=
  Console WARN [AStr "Hint type "; AType t; AStr " not implemented"].

Definition player_inactive_log (t : float) : Effect :=
  Console LOG [AStr "Player inactive for "; ANum t; AStr " seconds"].

Definition no_default_targets : Effect :=
  Console WARN
    [AStr "No default targets implemented. Use setCustomTargets() or provide targets parameter."].

Definition no_targets_for (what : string) : Effect :=
  Console WARN [AStr ("No targets available for " ++ what ++ " hint")].

(** The state in which the sequencer leaves a valid target [t] that it
    reached with closure [a]: the move tween and the press tween have been
    started and have run, so the pointer is at the offset position of [t]
    with the configured scale. *)
Definition visit (a : Anim) (t : TutorialTarget) (s : State) : State :=
  let p := offsetPosition s (worldPosition t) in
  let original := Vec3.clone (handScale (props s)) in
  let pressed :=
    Vec3.new (Vec3.x original * pressAnimationScale (props s))
             (Vec3.y original * pressAnimationScale (props s))
             (Vec3.z original) in
  let moved :=
    apply_prop (PropWorldPosition p)
      (effect (TweenStart [To (moveSpeed (props s)) (PropWorldPosition p);
                           Call (CallPress a)]) s) in
  let pressing :=
    effect (TweenStart [To (pressAnimationDuration (props s)) (PropScale pressed);
                        To (pressAnimationDuration (props s)) (PropScale original);
                        Delay 0.3;
                        Call (CallResolvePress a)]) moved in
  apply_prop (PropScale original) (apply_prop (PropScale pressed) pressing).

(** The state after the sequencer has gone through the targets [rest]
    that follow [currentIndex a], visiting the valid ones. *)
Fixpoint sweep (rest : list TutorialTarget) (a : Anim) (s : State) : State :=
  match rest with
  | [] => s
  | t :: rest' => sweep rest' (advance a) (if isValid t then visit a t s else s)
  end.

Definition count_valid (l : list TutorialTarget) : nat :=
  length (filter isValid l).

(** The positions that a session on [targets] moves the pointer to, from
    state [s]: those of the valid targets, when there is a pointer and the
    first target is valid. *)
Definition visited (s : State) (targets : list TutorialTarget) : list Vec3.t :=
  match hand s, targets with
  | Some _, first :: _ =>
      if isValid first
      then map (fun t => offsetPosition s (worldPosition t)) (filter isValid targets)
      else []
  | _, _ => []
  end.

(** What [playHintAnimation] leaves behind once the loop has run: the
    pending work is done, the flag is clear, [hint-end] was emitted once
    with the type of the handlers, and the pointer went to the positions
    [visited] and to no other. *)
Definition animation_outcome
    (s : State) (k : Handlers) (targets : list TutorialTarget) (s' : State) : Prop :=
  step s' = None /\
  isActive s' = false /\
  emitted (trace s') = emitted (trace s) ++ [Emit HINT_END (Some (on_type k))] /\
  moves (trace s') = moves (trace s) ++ visited s (firstn 3 targets) /\
  presses (trace s') = presses (trace s) + length (visited s (firstn 3 targets)) /\
  props s' = props s /\
  inactivityTime s' = inactivityTime s /\
  (forall h, hand s = Some h ->
     exists h', hand s' = Some h' /\ Node.active h' = false) /\
  (hand s = None -> hand s' = None).

(** The state in which a show function calls [playHintAnimation]: its log
    line is written, the flag is set and [hint-start] is emitted. *)
Definition opened (log : list Arg) (ty : HintType) (s : State) : State :=
  emit HINT_START (Some ty) (set_isActive true (console LOG log s)).

Definition type_or_custom (hintType : option HintType) : HintType :=
  match hintType with Some t => t | None => CUSTOM end.

(** What is observed of a whole session of type [ty] on [targets], from the
    state [s] of the request to the state [s'] in which nothing is pending
    any more. *)
Definition session_outcome
    (s : State) (ty : HintType) (targets : list TutorialTarget) (s' : State) : Prop :=
  step s' = None /\
  isActive s' = false /\
  emitted (trace s')
  = emitted (trace s) ++ [Emit HINT_START (Some ty); Emit HINT_END (Some ty)] /\
  moves (trace s') = moves (trace s) ++ visited s (firstn 3 targets) /\
  presses (trace s') = presses (trace s) + length (visited s (firstn 3 targets)) /\
  props s' = props s /\
  inactivityTime s' = inactivityTime s /\
  (forall h, hand s = Some h ->
     exists h', hand s' = Some h' /\ Node.active h' = false) /\
  (hand s = None -> hand s' = None).

(** What is observed when a session of type [ty], opened from [s] into
    [s1], ends without animating: no tween and no timer was created, two
    promise jobs end it, [hint-end] directly follows [hint-start], and the
    pointer was neither moved nor scaled. *)
Definition ends_at_once (s : State) (ty : HintType) (s1 : State) : Prop :=
  tweens (engine s1) = [] /\
  timers (engine s1) = [] /\
  step (run 2 s1) = None /\
  isActive (run 2 s1) = false /\
  emitted (trace (run 2 s1))
  = emitted (trace s) ++ [Emit HINT_START (Some ty); Emit HINT_END (Some ty)] /\
  moves (trace (run 2 s1)) = moves (trace s) /\
  presses (trace (run 2 s1)) = presses (trace s) /\
  option_map Node.worldPosition (hand (run 2 s1))
  = option_map Node.worldPosition (hand s) /\
  option_map Node.scale (hand (run 2 s1)) = option_map Node.scale (hand s).

Definition stale_targets : list TutorialTarget :=
  mkTarget (Some 7) (Vec3.new 5 0 5) false :: sample_targets.

Definition custom_opening (n : nat) : Effect :=
  Console LOG [AStr "Showing custom hint with"; ALen n; AStr "targets"].

Definition custom_error (e : JsError) : Effect :=
  Console ERROR [AStr "Custom hint error:"; AErr e].

Definition a_visible_pointer : State :=
  testHandPosition (mkTarget None (Vec3.new 5 0 5) true) a_ready_component.

Definition only_player_inactive (l : list Effect) : Prop :=
  Forall (fun e => e = Emit PLAYER_INACTIVE None) (emitted l).

Definition inactive_burst : list Effect :=
  [player_inactive_log 15%float; Emit PLAYER_INACTIVE None;
   no_default_targets; no_targets_for "inactivity"].

(** What is observed of a session of type [ty], opened from [s] into [s1]
    with first target valid, when [stop] is called before the settle delay
    has passed. *)
Definition outlives_stop
    (s : State) (targets : list TutorialTarget) (ty : HintType) (s1 : State) : Prop :=
  isActive (stop s1) = false /\
  timers (engine s1) <> [] /\
  timers (engine (stop s1)) = timers (engine s1) /\
  step (run 24 (stop s1)) = None /\
  emitted (trace (run 24 (stop s1)))
  = emitted (trace s) ++ [Emit HINT_START (Some ty); Emit HINT_END None;
                          Emit HINT_END (Some ty)] /\
  moves (trace (run 24 (stop s1)))
  = moves (trace s) ++ visited s (firstn 3 targets).

(** The target that [createTargetsFromNodes] makes of a node that exists. *)
Definition snapshot (n : SceneNode) : TutorialTarget :=
  mkTarget (Some (node_id n)) (node_worldPosition n) (node_isValid n).

(** ** Requests while a session is active: theorems *)

(** C1. While the active flag is set, [showHint], [showCustomHint],
    [showInactivityHint] and [showStartHint] return the state they were
    given: the flag, every field of the component, the pending work of the
    engine and the trace (so no [hint-start]) are unchanged, whatever the
    arguments. *)
Theorem requests_ignored_while_active :
  forall s : State, isActive s = true ->
    (forall hintType targets, showHint hintType targets s = s) /\
    (forall targets hintType, showCustomHint targets hintType s = s) /\
    (forall targets, showInactivityHint targets s = s) /\
    (forall targets, showStartHint targets s = s).
Proof.
  intros s Hactive. repeat split; intros.
  - unfold showHint. now rewrite Hactive.
  - unfold showCustomHint. now rewrite Hactive.
  - unfold showInactivityHint. now rewrite Hactive.
  - unfold showStartHint. now rewrite Hactive.
Qed.

Lemma requests_ignored_while_active_witness :
  isActive an_active_session = true /\
  showHint (Some START_GAME) (Some sample_targets) an_active_session
  = an_active_session.
Proof.
  split.
  - reflexivity.
  - apply (proj1 (requests_ignored_while_active an_active_session eq_refl)).
Defined.

(** ** [stop] *)

(** C9. Without an active session [stop] returns the state unchanged: no
    event, no change.  With one it asks the tween engine to stop the
    pointer's tweens, so that none is left running and, when nothing else
    was pending, no turn of the loop is left to run; the pointer actor, if
    there is one, is not active any more and keeps its position and scale;
    the flag is clear; and the trace has grown by the stop of the tween and
    by [hint-end] without a payload, the only event emitted.
    Configuration, idle time, pending timers and promise jobs are as
    before. *)
Theorem stop_behaviour :
  forall s : State,
    (isActive s = false -> stop s = s) /\
    (isActive s = true ->
       tweens (engine (stop s)) = [] /\
       hand (stop s) = option_map (Node.setActive false) (hand s) /\
       isActive (stop s) = false /\
       trace (stop s) = trace s ++ [TweenStop; Emit HINT_END None] /\
       props (stop s) = props s /\
       inactivityTime (stop s) = inactivityTime s /\
       isReady (stop s) = isReady s /\
       timers (engine (stop s)) = timers (engine s) /\
       microtasks (engine (stop s)) = microtasks (engine s) /\
       option_map Node.active (hand (stop s))
       = option_map (fun _ => false) (hand s) /\
       option_map Node.worldPosition (hand (stop s))
       = option_map Node.worldPosition (hand s) /\
       option_map Node.scale (hand (stop s)) = option_map Node.scale (hand s) /\
       emitted (trace (stop s)) = emitted (trace s) ++ [Emit HINT_END None] /\
       (microtasks (engine s) = [] -> timers (engine s) = [] ->
        step (stop s) = None)).
Proof.
  intros s. unfold stop. split; intros H; rewrite H.
  - reflexivity.
  - destruct s as [p [h|] t a r c [mq tq tm tk] tr]; cbn;
      rewrite <- !app_assoc; unfold emitted; rewrite filter_app; cbn;
      do 13 (split; [reflexivity|]); intros Hm Ht; rewrite Hm, Ht; reflexivity.
Qed.

Lemma stop_behaviour_witness :
  stop a_ready_component = a_ready_component /\
  trace (stop an_active_session)
  = trace an_active_session ++ [TweenStop; Emit HINT_END None] /\
  tweens (engine a_moving_pointer) <> [] /\
  option_map Node.active (hand a_moving_pointer) = Some true /\
  tweens (engine (stop a_moving_pointer)) = [] /\
  option_map Node.active (hand (stop a_moving_pointer)) = Some false /\
  emitted (trace (stop a_moving_pointer))
  = [Emit HINT_START (Some CUSTOM); Emit HINT_END None] /\
  step (stop a_moving_pointer) = None.
Proof.
  destruct (proj2 (stop_behaviour a_moving_pointer) eq_refl)
    as (T & _ & _ & _ & _ & _ & _ & _ & _ & A & _ & _ & E & S).
  split; [apply (proj1 (stop_behaviour a_ready_component)); reflexivity|].
  split; [apply (proj2 (stop_behaviour an_active_session)); reflexivity|].
  split; [vm_compute; discriminate|].
  split; [vm_compute; reflexivity|].
  split; [exact T|].
  split; [exact A|].
  split; [exact E|].
  exact (S eq_refl eq_refl).
Defined.

(** ** The unimplemented hint type *)

(** C10, as stated, fails in a state whose flag is set: [showHint] with
    [MISSION_FAIL] then logs nothing, and the flag is and stays true. *)
Lemma MISSION_FAIL_not_for_every_state :
  ~ (forall s targets,
       trace (showHint (Some MISSION_FAIL) targets s)
       = trace s ++ [not_implemented MISSION_FAIL] /\
       isActive (showHint (Some MISSION_FAIL) targets s) = false).
Proof.
  intros H. destruct (H an_active_session None) as [_ Hflag].
  vm_compute in Hflag. discriminate Hflag.
Qed.

(** C10, amended.  [MISSION_FAIL] is a fourth member of [HintType], with
    value 2, that the specification's enumeration does not list.  In every
    state without an active session, [showHint] with [MISSION_FAIL] appends
    one warning to the trace and changes nothing else: the flag stays
    false, no event is emitted and no tween, timer or promise job is
    created.  With an active session the call changes nothing at all. *)
Theorem showHint_MISSION_FAIL :
  (In MISSION_FAIL HintType_members /\ length HintType_members = 4 /\
   HintType_value MISSION_FAIL = 2 /\ ~ In MISSION_FAIL spec_hint_types) /\
  forall s targets,
    (isActive s = false ->
       showHint (Some MISSION_FAIL) targets s
       = set_trace (trace s ++ [not_implemented MISSION_FAIL]) s /\
       isActive (showHint (Some MISSION_FAIL) targets s) = false /\
       emitted (trace (showHint (Some MISSION_FAIL) targets s)) = emitted (trace s) /\
       engine (showHint (Some MISSION_FAIL) targets s) = engine s /\
       hand (showHint (Some MISSION_FAIL) targets s) = hand s) /\
    (isActive s = true -> showHint (Some MISSION_FAIL) targets s = s).
Proof.
  split.
  - repeat split; [cbn; tauto | ].
    cbn. intros [H|[H|[H|[]]]]; discriminate H.
  - intros s targets. unfold showHint. split; intros H; rewrite H.
    + repeat split; try assumption.
      unfold console, effect, emitted. cbn. rewrite filter_app. cbn.
      now rewrite app_nil_r.
    + reflexivity.
Qed.

Lemma showHint_MISSION_FAIL_witness :
  showHint (Some MISSION_FAIL) None a_ready_component
  = set_trace (trace a_ready_component ++ [not_implemented MISSION_FAIL])
      a_ready_component /\
  showHint (Some MISSION_FAIL) None an_active_session = an_active_session.
Proof.
  split.
  - apply (proj2 showHint_MISSION_FAIL a_ready_component None). reflexivity.
  - apply (proj2 showHint_MISSION_FAIL an_active_session None). reflexivity.
Defined.

(** ** The inactivity monitor *)

Lemma showInactivityHint_default :
  forall s, isActive s = false ->
    showInactivityHint None s
    = set_trace (trace s ++ [no_default_targets; no_targets_for "inactivity"]) s.
Proof.
  intros s H. unfold showInactivityHint. rewrite H. cbn.
  unfold console, effect. cbn. now rewrite <- app_assoc.
Qed.

(** C4. A tick changes nothing while a session is active or before the
    component is ready: state, counter and trace are as they were.
    Otherwise it adds 1 to the idle counter; below the delay that is all:
    the counter is one more and the trace is unchanged.  When the
    incremented counter is at least the delay, the tick logs, emits
    [player-inactive], runs [showInactivityHint()] and resets the counter:
    the trace has grown by the log line, the event and the two warnings of
    the missing targets, [player-inactive] is the one event emitted, the
    counter is 0, and as no targets are available no session starts (flag
    clear, nothing pending) while the counter is reset all the same.  With
    the default delay of 15, fourteen ticks after [setup] only count
    (counter 14, trace unchanged, no event), and the fifteenth emits
    [player-inactive] and leaves the counter at 0. *)
Theorem checkInactivity_tick :
  (forall s, isActive s = true \/ isReady s = false ->
     checkInactivity s = s /\
     trace (checkInactivity s) = trace s /\
     inactivityTime (checkInactivity s) = inactivityTime s) /\
  (forall s, isActive s = false -> isReady s = true ->
     (inactivityDelay (props s) <=? inactivityTime s + 1)%float = false ->
     checkInactivity s = set_inactivityTime (inactivityTime s + 1)%float s /\
     inactivityTime (checkInactivity s) = (inactivityTime s + 1)%float /\
     trace (checkInactivity s) = trace s) /\
  (forall s, isActive s = false -> isReady s = true ->
     (inactivityDelay (props s) <=? inactivityTime s + 1)%float = true ->
     let counted := set_inactivityTime (inactivityTime s + 1)%float s in
     checkInactivity s
     = resetInactivityTimer
         (showInactivityHint None
            (emit PLAYER_INACTIVE None
               (console LOG [AStr "Player inactive for ";
                             ANum (inactivityTime counted); AStr " seconds"]
                  counted))) /\
     checkInactivity s
     = set_inactivityTime 0%float
         (set_trace (trace s ++ [player_inactive_log (inactivityTime s + 1)%float;
                                 Emit PLAYER_INACTIVE None;
                                 no_default_targets;
                                 no_targets_for "inactivity"]) s) /\
     isActive (checkInactivity s) = false /\
     engine (checkInactivity s) = engine s /\
     trace (checkInactivity s)
     = trace s ++ [player_inactive_log (inactivityTime s + 1)%float;
                   Emit PLAYER_INACTIVE None;
                   no_default_targets;
                   no_targets_for "inactivity"] /\
     emitted (trace (checkInactivity s))
     = emitted (trace s) ++ [Emit PLAYER_INACTIVE None] /\
     inactivityTime (checkInactivity s) = 0%float /\
     hand (checkInactivity s) = hand s) /\
  (forall prefab,
     let s0 := setup (initial prefab) in
     inactivityDelay (props s0) = 15%float /\
     Nat.iter 14 checkInactivity s0 = set_inactivityTime 14%float s0 /\
     Nat.iter 15 checkInactivity s0
     = set_trace (trace s0 ++ [player_inactive_log 15%float;
                               Emit PLAYER_INACTIVE None;
                               no_default_targets;
                               no_targets_for "inactivity"]) s0 /\
     inactivityTime (Nat.iter 15 checkInactivity s0) = 0%float /\
     inactivityTime (Nat.iter 14 checkInactivity s0) = 14%float /\
     trace (Nat.iter 14 checkInactivity s0) = trace s0 /\
     emitted (trace (Nat.iter 14 checkInactivity s0)) = [] /\
     trace (Nat.iter 15 checkInactivity s0)
     = trace s0 ++ [player_inactive_log 15%float;
                    Emit PLAYER_INACTIVE None;
                    no_default_targets;
                    no_targets_for "inactivity"] /\
     emitted (trace (Nat.iter 15 checkInactivity s0))
     = [Emit PLAYER_INACTIVE None] /\
     isActive (Nat.iter 15 checkInactivity s0) = false).
Proof.
  split; [|split; [|split]].
  - intros s H.
    assert (E : checkInactivity s = s).
    { destruct H as [H|H]; unfold checkInactivity; rewrite H; cbn;
        [reflexivity | now rewrite orb_true_r]. }
    rewrite E. repeat split.
  - intros s Ha Hr Hlt.
    assert (E : checkInactivity s
                = set_inactivityTime (inactivityTime s + 1)%float s).
    { unfold checkInactivity. rewrite Ha, Hr. cbn. now rewrite Hlt. }
    rewrite E. repeat split.
  - intros s Ha Hr Hge counted.
    assert (E : checkInactivity s
                = resetInactivityTimer
                    (showInactivityHint None
                       (emit PLAYER_INACTIVE None
                          (console LOG [AStr "Player inactive for ";
                                        ANum (inactivityTime counted);
                                        AStr " seconds"] counted)))).
    { unfold checkInactivity. rewrite Ha, Hr. cbn. now rewrite Hge. }
    split; [exact E|].
    rewrite E, showInactivityHint_default by exact Ha.
    destruct s as [p h t a r c e tr]. cbn in *.
    unfold resetInactivityTimer, set_inactivityTime, set_trace, emitted. cbn.
    rewrite <- !app_assoc. cbn. rewrite filter_app. cbn.
    repeat split; assumption.
  - intros [prefab|]; vm_compute; repeat split.
Qed.

Lemma checkInactivity_tick_witness :
  trace (checkInactivity (setInactivityDelay 1%float a_ready_component))
  = trace a_ready_component
    ++ [player_inactive_log 1%float; Emit PLAYER_INACTIVE None;
        no_default_targets; no_targets_for "inactivity"] /\
  emitted (trace (checkInactivity (setInactivityDelay 1%float a_ready_component)))
  = [Emit PLAYER_INACTIVE None] /\
  inactivityTime (checkInactivity (setInactivityDelay 1%float a_ready_component))
  = 0%float /\
  inactivityTime (checkInactivity a_ready_component) = 1%float /\
  trace (checkInactivity a_ready_component) = trace a_ready_component /\
  checkInactivity an_active_session = an_active_session.
Proof.
  destruct (proj1 (proj2 (proj2 checkInactivity_tick))
              (setInactivityDelay 1%float a_ready_component)
              eq_refl eq_refl eq_refl)
    as (_ & _ & _ & _ & T & E & I & _).
  destruct (proj1 (proj2 checkInactivity_tick) a_ready_component
              eq_refl eq_refl eq_refl) as (_ & I1 & T1).
  split; [exact T|]. split; [exact E|]. split; [exact I|].
  split; [exact I1|]. split; [exact T1|].
  apply (proj1 checkInactivity_tick an_active_session). left. reflexivity.
Defined.

(** ** The press animation *)

Lemma clone_eq : forall v, Vec3.clone v = v.
Proof. now intros []. Qed.

(** C8. [playPressAnimation] starts one tween whose actions are: scale to
    the pressed scale (X and Y of the configured scale times the
    multiplier, Z as it is) over [pressAnimationDuration]; scale back to
    the configured scale over the same duration; a pause of 0.3; resolve.
    Run by the engine on an otherwise idle pointer, the first action leaves
    the pressed scale, the second the configured scale, the third changes
    nothing and resolves nothing, and only the fourth turn resolves the
    promise. *)
Theorem press_animation_three_phases :
  forall (a : Anim) (s : State),
    let original := handScale (props s) in
    let m := pressAnimationScale (props s) in
    let d := pressAnimationDuration (props s) in
    let pressed :=
      Vec3.new (Vec3.x original * m) (Vec3.y original * m) (Vec3.z original) in
    playPressAnimation a s
    = tween_start [To d (PropScale pressed); To d (PropScale original);
                   Delay 0.3; Call (CallResolvePress a)] s /\
    forall h, hand s = Some h ->
      microtasks (engine s) = [] -> tweens (engine s) = [] ->
      exists s1 s2 s3 s4,
        step (playPressAnimation a s) = Some s1 /\
        hand s1 = Some (Node.setScale pressed h) /\
        tweens (engine s1)
        = [[To d (PropScale original); Delay 0.3; Call (CallResolvePress a)]] /\
        step s1 = Some s2 /\
        hand s2 = Some (Node.setScale original h) /\
        tweens (engine s2) = [[Delay 0.3; Call (CallResolvePress a)]] /\
        step s2 = Some s3 /\
        hand s3 = hand s2 /\
        tweens (engine s3) = [[Call (CallResolvePress a)]] /\
        microtasks (engine s3) = [] /\
        step s3 = Some s4 /\
        hand s4 = hand s2 /\
        tweens (engine s4) = [] /\
        microtasks (engine s4) = [PressThen a].
Proof.
  intros a s original m d pressed. split.
  - unfold playPressAnimation. rewrite clone_eq. reflexivity.
  - intros h Hh Hm Ht. unfold playPressAnimation. rewrite clone_eq.
    destruct s as [p h0 t ac r c [mq tq tm tk] tr]. cbn in *. subst.
    do 4 eexists. cbn. repeat split.
Qed.

Lemma press_animation_three_phases_witness :
  exists s1 s2 s3 s4,
    step (playPressAnimation (mkAnim sample_targets 0 (mkHandlers CUSTOM ""))
            a_ready_component) = Some s1 /\
    option_map Node.scale (hand s1)
    = Some (Vec3.new (1 * 1.2)%float (1 * 1.2)%float 1%float) /\
    step s1 = Some s2 /\
    option_map Node.scale (hand s2) = Some (Vec3.new 1%float 1%float 1%float) /\
    step s2 = Some s3 /\ step s3 = Some s4 /\
    microtasks (engine s4)
    = [PressThen (mkAnim sample_targets 0 (mkHandlers CUSTOM ""))].
Proof.
  destruct (proj2 (press_animation_three_phases
                     (mkAnim sample_targets 0 (mkHandlers CUSTOM ""))
                     a_ready_component)
              _ eq_refl eq_refl eq_refl)
    as (s1 & s2 & s3 & s4 & E1 & H1 & _ & E2 & H2 & _ & E3 & _ & _ & _ & E4 & _ & _ & M).
  exists s1, s2, s3, s4.
  split; [exact E1|]. split; [rewrite H1; vm_compute; reflexivity|].
  split; [exact E2|]. split; [rewrite H2; vm_compute; reflexivity|].
  split; [exact E3|]. split; [exact E4 | exact M].
Defined.

(** ** Running a session to its end *)

Arguments animateNextTarget : simpl never.

Lemma run_add : forall n m s, run (n + m) s = run m (run n s).
Proof.
  induction n as [|n IH]; intros m s; cbn; [reflexivity|].
  destruct (step s) as [s'|] eqn:E; [apply IH|].
  destruct m; cbn; [reflexivity | now rewrite E].
Qed.

Lemma run_quiescent : forall n s, step s = None -> run n s = s.
Proof. intros [|n] s H; cbn; [reflexivity | now rewrite H]. Qed.

Lemma run_more :
  forall n m s, n <= m -> step (run n s) = None -> run m s = run n s.
Proof.
  intros n m s Hle H. replace m with (n + (m - n)) by lia.
  rewrite run_add. now apply run_quiescent.
Qed.

Lemma skipn_cons_nth :
  forall (A : Type) (l : list A) i t r,
    skipn i l = t :: r -> nth_error l i = Some t /\ skipn (S i) l = r.
Proof.
  intros A l. induction l as [|x l IH]; intros i t r H.
  - destruct i; discriminate H.
  - destruct i as [|i]; cbn in *.
    + injection H as -> ->. now split.
    + destruct (IH _ _ _ H) as [H1 H2]. split; [exact H1|].
      destruct l; [destruct i; discriminate H | exact H2].
Qed.

Lemma skipn_nil_nth :
  forall (A : Type) (l : list A) i, skipn i l = [] -> nth_error l i = None.
Proof.
  intros A l. induction l as [|x l IH]; intros i H.
  - now destruct i.
  - destruct i as [|i]; cbn in *; [discriminate H | now apply IH].
Qed.

Lemma animateNextTarget_done :
  forall a s, nth_error (anim_targets a) (currentIndex a) = None ->
    animateNextTarget a s = enqueue (AwaitResume (anim_owner a)) s.
Proof.
  intros a s H. unfold animateNextTarget.
  destruct (length (anim_targets a) - currentIndex a); cbn; now rewrite H.
Qed.

Lemma animateNextTarget_valid :
  forall a s t, nth_error (anim_targets a) (currentIndex a) = Some t ->
    isValid t = true ->
    animateNextTarget a s
    = tween_start
        [To (moveSpeed (props s))
            (PropWorldPosition (offsetPosition s (worldPosition t)));
         Call (CallPress a)] s.
Proof.
  intros a s t H V. unfold animateNextTarget.
  destruct (length (anim_targets a) - currentIndex a); cbn; now rewrite H, V.
Qed.

Lemma animateNextTarget_skip :
  forall a s t, nth_error (anim_targets a) (currentIndex a) = Some t ->
    isValid t = false ->
    animateNextTarget a s = animateNextTarget (advance a) s.
Proof.
  intros a s t H V. unfold animateNextTarget.
  assert (L : currentIndex a < length (anim_targets a))
    by (apply nth_error_Some; congruence).
  replace (length (anim_targets a) - currentIndex a)
    with (S (length (anim_targets (advance a)) - currentIndex (advance a)))
    by (cbn; lia).
  cbn. now rewrite H, V.
Qed.

(** A valid target takes seven turns of the loop: the move, its callback,
    the three actions of the press tween, its callback, and the promise
    job that advances the index. *)
Lemma run_visit :
  forall a t s h n,
    hand s = Some h -> microtasks (engine s) = [] -> tweens (engine s) = [] ->
    nth_error (anim_targets a) (currentIndex a) = Some t -> isValid t = true ->
    run (7 + n) (animateNextTarget a s)
    = run n (animateNextTarget (advance a) (visit a t s)).
Proof.
  intros a t s h n Hh Hm Ht Hn V.
  rewrite (animateNextTarget_valid _ _ _ Hn V), run_add. f_equal.
  destruct s as [p h0 ti ac r c [mq tq tm tk] tr]. cbn in *. subst.
  reflexivity.
Qed.

Lemma visit_keeps :
  forall a t s h,
    hand s = Some h ->
    (exists h', hand (visit a t s) = Some h' /\ Node.active h' = Node.active h) /\
    engine (visit a t s) = engine s /\
    props (visit a t s) = props s /\
    isActive (visit a t s) = isActive s /\
    inactivityTime (visit a t s) = inactivityTime s /\
    isReady (visit a t s) = isReady s /\
    emitted (trace (visit a t s)) = emitted (trace s) /\
    moves (trace (visit a t s))
    = moves (trace s) ++ [offsetPosition s (worldPosition t)] /\
    presses (trace (visit a t s)) = S (presses (trace s)).
Proof.
  intros a t s h Hh.
  destruct s as [p h0 ti ac r c e tr]. cbn in *. subst.
  unfold visit, effect, apply_prop. cbn.
  repeat split.
  - eexists. split; reflexivity.
  - unfold emitted. rewrite !filter_app. cbn. now rewrite !app_nil_r.
  - unfold moves. rewrite !flat_map_app. cbn. now rewrite app_nil_r.
  - unfold presses. rewrite !filter_app, !length_app. cbn. lia.
Qed.

Lemma offsetPosition_props :
  forall s s' p, props s' = props s -> offsetPosition s' p = offsetPosition s p.
Proof. intros s s' p H. unfold offsetPosition. now rewrite H. Qed.

Lemma sweep_keeps :
  forall rest a s h,
    hand s = Some h ->
    (exists h', hand (sweep rest a s) = Some h' /\ Node.active h' = Node.active h) /\
    engine (sweep rest a s) = engine s /\
    props (sweep rest a s) = props s /\
    isActive (sweep rest a s) = isActive s /\
    inactivityTime (sweep rest a s) = inactivityTime s /\
    isReady (sweep rest a s) = isReady s /\
    emitted (trace (sweep rest a s)) = emitted (trace s) /\
    moves (trace (sweep rest a s))
    = moves (trace s)
      ++ map (fun t => offsetPosition s (worldPosition t)) (filter isValid rest) /\
    presses (trace (sweep rest a s)) = presses (trace s) + count_valid rest.
Proof.
  induction rest as [|t rest IH]; intros a s h Hh.
  - cbn. rewrite app_nil_r. unfold count_valid. cbn.
    repeat split; try reflexivity; [now exists h | lia].
  - cbn [sweep]. unfold count_valid. cbn [filter].
    destruct (isValid t) eqn:V.
    + destruct (visit_keeps a t s h Hh)
        as ((h1 & Hh1 & A1) & E1 & P1 & I1 & T1 & R1 & M1 & V1 & C1).
      destruct (IH (advance a) (visit a t s) h1 Hh1)
        as ((h2 & Hh2 & A2) & E2 & P2 & I2 & T2 & R2 & M2 & V2 & C2).
      repeat split; try congruence.
      * exists h2. split; congruence.
      * rewrite V2, V1, <- app_assoc. cbn. do 2 f_equal.
        apply map_ext. intros t'. now apply offsetPosition_props.
      * rewrite C2, C1. unfold count_valid. cbn. lia.
    + apply (IH (advance a) s h Hh).
Qed.

(** The loop of [animateNextTarget] over the targets that are left takes
    seven turns for each valid one and ends by resolving the promise that
    [playHintAnimation] awaits. *)
Lemma run_sweep :
  forall rest a s h n,
    skipn (currentIndex a) (anim_targets a) = rest ->
    hand s = Some h -> microtasks (engine s) = [] -> tweens (engine s) = [] ->
    run (7 * count_valid rest + n) (animateNextTarget a s)
    = run n (enqueue (AwaitResume (anim_owner a)) (sweep rest a s)).
Proof.
  induction rest as [|t rest IH]; intros a s h n Hs Hh Hm Ht.
  - cbn. now rewrite (animateNextTarget_done _ _ (skipn_nil_nth _ _ _ Hs)).
  - destruct (skipn_cons_nth _ _ _ _ _ Hs) as [Hn Hs'].
    cbn [sweep]. unfold count_valid. cbn [filter].
    destruct (isValid t) eqn:V.
    + replace (7 * length (t :: filter isValid rest) + n)
        with (7 + (7 * count_valid rest + n)) by (unfold count_valid; cbn; lia).
      rewrite (run_visit a t s h _ Hh Hm Ht Hn V).
      destruct (visit_keeps a t s h Hh) as ((h1 & Hh1 & _) & E1 & _).
      apply (IH (advance a) (visit a t s) h1 n Hs' Hh1); now rewrite E1.
    + rewrite (animateNextTarget_skip _ _ _ Hn V).
      apply (IH (advance a) s h n Hs' Hh Hm Ht).
Qed.

(** The two promise jobs that end a session whose animation resolved. *)
Lemma run_resolved :
  forall k w h n,
    hand w = Some h -> quiescent w ->
    run (2 + n) (enqueue (AwaitResume k) w)
    = emit HINT_END (Some (on_type k))
        (set_isActive false (hand_setActive false h w)) /\
    step (run (2 + n) (enqueue (AwaitResume k) w)) = None.
Proof.
  intros k w h n Hh (Hm & Ht & Hti). rewrite run_add.
  destruct w as [p h0 ti ac r c [mq tq tm tk] tr]. cbn in Hh, Hm, Ht, Hti. subst.
  change (run 2 (enqueue (AwaitResume k) ?w))
    with (emit HINT_END (Some (on_type k))
            (set_isActive false (hand_setActive false h w))).
  rewrite run_quiescent by reflexivity. now split.
Qed.

(** The two promise jobs that end a session whose animation rejected. *)
Lemma run_rejected :
  forall k e s n,
    quiescent s ->
    run (2 + n) (reject k e s)
    = emit HINT_END (Some (on_type k))
        (set_isActive false (console ERROR [AStr (on_label k); AErr e] s)) /\
    step (run (2 + n) (reject k e s)) = None.
Proof.
  intros k e s n (Hm & Ht & Hti). rewrite run_add.
  destruct s as [p h0 ti ac r c [mq tq tm tk] tr]. cbn in Hm, Ht, Hti. subst.
  change (run 2 (reject k e ?w))
    with (emit HINT_END (Some (on_type k))
            (set_isActive false (console ERROR [AStr (on_label k); AErr e] w))).
  rewrite run_quiescent by reflexivity. now split.
Qed.

Lemma emitted_app : forall t u, emitted (t ++ u) = emitted t ++ emitted u.
Proof. intros. apply filter_app. Qed.

Lemma moves_app : forall t u, moves (t ++ u) = moves t ++ moves u.
Proof. intros. apply flat_map_app. Qed.

Lemma presses_app : forall t u, presses (t ++ u) = presses t + presses u.
Proof. intros. unfold presses. now rewrite filter_app, length_app. Qed.

Lemma count_valid_firstn3 : forall l, count_valid (firstn 3 l) <= 3.
Proof.
  intros l. unfold count_valid.
  etransitivity; [apply filter_length_le | apply firstn_le_length].
Qed.

Lemma ended_session :
  forall ty w F,
    F = emit HINT_END (Some ty) (set_isActive false w) ->
    trace F = trace w ++ [Emit HINT_END (Some ty)] /\
    isActive F = false /\ props F = props w /\
    inactivityTime F = inactivityTime w /\ hand F = hand w.
Proof. intros ty w F ->. repeat split. Qed.

Lemma playHintAnimation_runs :
  forall targets k s,
    quiescent s -> targets <> [] ->
    animation_outcome s k targets (run 24 (playHintAnimation targets k s)).
Proof.
  intros [|t rest] k s Q Hne; [congruence|]. clear Hne.
  unfold playHintAnimation. cbn [length Nat.ltb Nat.leb].
  generalize (count_valid_firstn3 (t :: rest)).
  change (firstn 3 (t :: rest)) with (t :: firstn 2 rest).
  set (hint := t :: firstn 2 rest). intros Hc.
  assert (Hv : forall b : bool,
             isValid t = b ->
             visited s (firstn 3 (t :: rest))
             = match hand s with
               | Some _ =>
                   if b
                   then map (fun t' => offsetPosition s (worldPosition t'))
                          (filter isValid hint)
                   else []
               | None => []
               end).
  { intros b Hb. unfold visited, hint.
    change (firstn 3 (t :: rest)) with (t :: firstn 2 rest).
    cbv beta iota. rewrite Hb.
    destruct (hand s), b; reflexivity. }
  destruct (hand s) as [h|] eqn:Hh.
  - (* there is a pointer *)
    unfold animateHandThroughTargets, hint at 1.
    destruct (isValid t) eqn:V; cbn [negb].
    + (* first target valid: settle delay, then the loop *)
      set (placed := set_hand
                       (Some (Node.setWorldPosition
                                (offsetPosition (hand_setActive true h s)
                                   (worldPosition t))
                                (Node.setActive true h)))
                       (hand_setActive true h s)).
      set (a := mkAnim hint 0 k).
      assert (E1 : forall n,
                 run (S n) (match hand (hand_setActive true h s) with
                            | Some h0 =>
                                scheduleOnce (CallAnimateNext a) 0.5
                                  (set_hand
                                     (Some (Node.setWorldPosition
                                              (offsetPosition (hand_setActive true h s)
                                                 (worldPosition t)) h0))
                                     (hand_setActive true h s))
                            | None => reject k null_hand (hand_setActive true h s)
                            end)
                 = run n (animateNextTarget a placed)).
      { intros n. subst placed. destruct Q as (Qm & Qt & Qi).
        destruct s as [p h0 ti ac r c [mq tq tm tk] tr].
        cbn in Hh, Qm, Qt, Qi. subst. reflexivity. }
      assert (Hp : hand placed = Some (Node.setWorldPosition
                                         (offsetPosition (hand_setActive true h s)
                                            (worldPosition t))
                                         (Node.setActive true h)))
        by reflexivity.
      assert (Qp : engine placed = engine s) by reflexivity.
      destruct Q as (Qm & Qt & Qi).
      destruct (sweep_keeps hint a placed _ Hp)
        as ((hw & Hw & Aw) & Ew & Pw & Iw & Tw & Rw & Mw & Vw & Cw).
      replace 24 with (S (7 * count_valid hint + (2 + (21 - 7 * count_valid hint))))
        by lia.
      rewrite E1.
      rewrite (run_sweep hint a placed _ _ eq_refl Hp)
        by (rewrite Qp; assumption).
      assert (Qw : quiescent (sweep hint a placed))
        by (unfold quiescent; rewrite Ew, Qp; auto).
      change (anim_owner a) with k.
      destruct (run_resolved k (sweep hint a placed) hw
                  (21 - 7 * count_valid hint) Hw Qw) as [EF Hstep].
      destruct (ended_session _ _ _ EF) as (Ft & Fa & Fp & Fi & Fh).
      assert (Tp : trace placed = trace s) by reflexivity.
      assert (Pp : props placed = props s) by reflexivity.
      assert (Ip : inactivityTime placed = inactivityTime s) by reflexivity.
      unfold animation_outcome. rewrite (Hv true eq_refl).
      rewrite Hstep, Ft, Fa, Fp, Fi, Fh, emitted_app, moves_app, presses_app.
      change (hand (hand_setActive false hw (sweep hint a placed)))
        with (Some (Node.setActive false hw)).
      change (trace (hand_setActive false hw (sweep hint a placed)))
        with (trace (sweep hint a placed)).
      change (props (hand_setActive false hw (sweep hint a placed)))
        with (props (sweep hint a placed)).
      change (inactivityTime (hand_setActive false hw (sweep hint a placed)))
        with (inactivityTime (sweep hint a placed)).
      rewrite Mw, Vw, Cw, Pw, Tw, length_map, Tp, Pp, Ip.
      rewrite (map_ext _ _ (fun t' => offsetPosition_props s placed (worldPosition t') Pp)).
      change (emitted [Emit HINT_END (Some (on_type k))])
        with [Emit HINT_END (Some (on_type k))].
      change (moves [Emit HINT_END (Some (on_type k))]) with (@nil Vec3.t).
      change (presses [Emit HINT_END (Some (on_type k))]) with 0.
      rewrite app_nil_r, Nat.add_0_r. fold (count_valid hint).
      split; [reflexivity|]. split; [reflexivity|]. split; [reflexivity|].
      split; [reflexivity|]. split; [reflexivity|]. split; [reflexivity|].
      split; [reflexivity|]. split.
      * intros h1 _. exists (Node.setActive false hw). split; reflexivity.
      * rewrite Hh. discriminate.
    + (* first target invalid: the promise resolves at once *)
      assert (Qa : quiescent (hand_setActive true h s)) by exact Q.
      destruct (run_resolved k (hand_setActive true h s) (Node.setActive true h)
                  22 eq_refl Qa) as [EF Hstep].
      destruct (ended_session _ _ _ EF) as (Ft & Fa & Fp & Fi & Fh).
      change 24 with (2 + 22).
      unfold animation_outcome. rewrite (Hv false eq_refl).
      rewrite Hstep, Ft, Fa, Fp, Fi, Fh, emitted_app, moves_app, presses_app.
      change (emitted [Emit HINT_END (Some (on_type k))])
        with [Emit HINT_END (Some (on_type k))].
      change (moves [Emit HINT_END (Some (on_type k))]) with (@nil Vec3.t).
      change (presses [Emit HINT_END (Some (on_type k))]) with 0.
      change (length (@nil Vec3.t)) with 0.
      rewrite !app_nil_r, !Nat.add_0_r.
      split; [reflexivity|]. split; [reflexivity|]. split; [reflexivity|].
      split; [reflexivity|]. split; [reflexivity|]. split; [reflexivity|].
      split; [reflexivity|]. split.
      * intros h1 _. exists (Node.setActive false (Node.setActive true h)).
        split; reflexivity.
      * rewrite Hh. discriminate.
  - (* no pointer: the assignment to [this.hand.active] throws *)
    destruct (run_rejected k null_hand s 22 Q) as [EF Hstep].
    destruct (ended_session _ _ _ EF) as (Ft & Fa & Fp & Fi & Fh).
    change 24 with (2 + 22).
    unfold animation_outcome. rewrite (Hv _ eq_refl).
    rewrite Hstep, Ft, Fa, Fp, Fi, Fh.
    change (trace (console ERROR [AStr (on_label k); AErr null_hand] s))
      with (trace s ++ [Console ERROR [AStr (on_label k); AErr null_hand]]).
    rewrite !emitted_app, !moves_app, !presses_app.
    change (emitted [Console ERROR [AStr (on_label k); AErr null_hand]])
      with (@nil Effect).
    change (moves [Console ERROR [AStr (on_label k); AErr null_hand]])
      with (@nil Vec3.t).
    change (presses [Console ERROR [AStr (on_label k); AErr null_hand]]) with 0.
    change (emitted [Emit HINT_END (Some (on_type k))])
      with [Emit HINT_END (Some (on_type k))].
    change (moves [Emit HINT_END (Some (on_type k))]) with (@nil Vec3.t).
    change (presses [Emit HINT_END (Some (on_type k))]) with 0.
    change (length (@nil Vec3.t)) with 0.
    rewrite !app_nil_r, !Nat.add_0_r.
    split; [reflexivity|]. split; [reflexivity|]. split; [reflexivity|].
    split; [reflexivity|]. split; [reflexivity|]. split; [reflexivity|].
    split; [reflexivity|]. split.
    + intros h1 H1. rewrite Hh in H1. discriminate H1.
    + intros _. exact Hh.
Qed.

(** ** Sessions opened through the public API *)

(** The four public entry points open a session on an explicit, non-empty
    target list in the same way. *)
Lemma flows_open :
  forall (s : State) (targets : list TutorialTarget) (P : HintType -> State -> Prop),
    isActive s = false -> targets <> [] ->
    (forall ty label log,
        P ty (playHintAnimation targets (mkHandlers ty label) (opened log ty s))) ->
    (forall hintType, P (type_or_custom hintType) (showCustomHint targets hintType s)) /\
    P INACTIVITY (showInactivityHint (Some targets) s) /\
    P START_GAME (showStartHint (Some targets) s) /\
    (forall ty, ty <> MISSION_FAIL -> P ty (showHint (Some ty) (Some targets) s)).
Proof.
  intros s targets P Ha Hne HP.
  assert (L : (length targets =? 0)%nat = false)
    by (destruct targets; [congruence | reflexivity]).
  assert (C : forall hintType,
             P (type_or_custom hintType) (showCustomHint targets hintType s)).
  { intros hintType. unfold showCustomHint. rewrite Ha. apply HP. }
  assert (I : P INACTIVITY (showInactivityHint (Some targets) s)).
  { unfold showInactivityHint. rewrite Ha. cbn [resolveTargets]. rewrite L. apply HP. }
  assert (S : P START_GAME (showStartHint (Some targets) s)).
  { unfold showStartHint. rewrite Ha. cbn [resolveTargets]. rewrite L. apply HP. }
  repeat split; try assumption.
  intros ty Hty. unfold showHint. rewrite Ha.
  destruct ty; [exact S | exact I | congruence | exact (C None)].
Qed.

Lemma opened_keeps :
  forall log ty s,
    quiescent (opened log ty s) = quiescent s /\
    hand (opened log ty s) = hand s /\
    props (opened log ty s) = props s /\
    inactivityTime (opened log ty s) = inactivityTime s /\
    emitted (trace (opened log ty s))
    = emitted (trace s) ++ [Emit HINT_START (Some ty)] /\
    moves (trace (opened log ty s)) = moves (trace s) /\
    presses (trace (opened log ty s)) = presses (trace s).
Proof.
  intros log ty s. unfold opened, emit, console, effect, set_isActive, set_trace.
  cbn [trace hand props inactivityTime].
  rewrite !emitted_app, !moves_app, !presses_app. cbn.
  rewrite !app_nil_r, !Nat.add_0_r. repeat split; reflexivity.
Qed.

Lemma visited_opened :
  forall log ty s targets, visited (opened log ty s) targets = visited s targets.
Proof. reflexivity. Qed.

Lemma opened_session_outcome :
  forall log ty label s targets,
    quiescent s -> targets <> [] ->
    session_outcome s ty targets
      (run 24 (playHintAnimation targets (mkHandlers ty label) (opened log ty s))).
Proof.
  intros log ty label s targets Q Hne.
  destruct (opened_keeps log ty s) as (Qo & Ho & Po & Io & Eo & Mo & Co).
  assert (Q' : quiescent (opened log ty s)) by (rewrite Qo; exact Q).
  destruct (playHintAnimation_runs targets (mkHandlers ty label) _ Q' Hne)
    as (A1 & A2 & A3 & A4 & A5 & A6 & A7 & A8 & A9).
  rewrite visited_opened in A4, A5.
  unfold session_outcome.
  rewrite A1, A2, A3, A4, A5, A6, A7, Eo, Mo, Co, Po, Io, <- app_assoc.
  repeat split; try reflexivity.
  - intros h Hh. apply (A8 h). now rewrite Ho.
  - intros Hh. apply A9. now rewrite Ho.
Qed.

Lemma visited_bound :
  forall s targets,
    length (visited s (firstn 3 targets)) <= 3 /\
    forall p, In p (visited s (firstn 3 targets)) ->
      exists t, In t (firstn 3 targets) /\ isValid t = true /\
                p = offsetPosition s (worldPosition t).
Proof.
  intros s targets. unfold visited.
  destruct (hand s); [|split; [cbn; lia | intros p []]].
  destruct (firstn 3 targets) as [|first l] eqn:E;
    [split; [cbn; lia | intros p []]|].
  destruct (isValid first); [|split; [cbn; lia | intros p []]].
  split.
  - rewrite length_map. rewrite <- E.
    etransitivity; [apply filter_length_le | apply firstn_le_length].
  - intros p Hp. apply in_map_iff in Hp. destruct Hp as (t' & <- & Ht').
    apply filter_In in Ht'. destruct Ht' as [In' V']. now exists t'.
Qed.

(** C5. A session requested with more than three targets, from a state
    with no session and nothing pending, runs to its end through any of
    the entry points: [hint-start] and [hint-end] are each emitted once,
    with the type of the session; the move tweens started are those towards
    the valid ones of the first three targets (none when there is no
    pointer or the first target is invalid), with one press tween each; so
    at most three positions are visited, each that of one of the first
    three targets, and the flag is clear at the end. *)
Theorem long_target_list_truncated :
  forall (s : State) (targets : list TutorialTarget),
    quiescent s -> isActive s = false -> 3 < length targets ->
    (forall hintType,
        session_outcome s (type_or_custom hintType) targets
          (run 24 (showCustomHint targets hintType s))) /\
    session_outcome s INACTIVITY targets
      (run 24 (showInactivityHint (Some targets) s)) /\
    session_outcome s START_GAME targets
      (run 24 (showStartHint (Some targets) s)) /\
    (forall ty, ty <> MISSION_FAIL ->
        session_outcome s ty targets
          (run 24 (showHint (Some ty) (Some targets) s))) /\
    length (visited s (firstn 3 targets)) <= 3 /\
    (forall p, In p (visited s (firstn 3 targets)) ->
       exists t, In t (firstn 3 targets) /\ isValid t = true /\
                 p = offsetPosition s (worldPosition t)).
Proof.
  intros s targets Q Ha Hlen.
  assert (Hne : targets <> []) by (destruct targets; [cbn in Hlen; lia | congruence]).
  destruct (flows_open s targets
              (fun ty s1 => session_outcome s ty targets (run 24 s1)) Ha Hne)
    as (C & I & S & H).
  { intros ty label log. now apply opened_session_outcome. }
  destruct (visited_bound s targets) as [B1 B2].
  split; [exact C|]. split; [exact I|]. split; [exact S|].
  split; [exact H|]. split; [exact B1 | exact B2].
Qed.

Lemma long_target_list_truncated_witness :
  session_outcome a_ready_component CUSTOM sample_targets
    (run 24 (showCustomHint sample_targets None a_ready_component)) /\
  length (visited a_ready_component (firstn 3 sample_targets)) <= 3.
Proof.
  assert (Q : quiescent a_ready_component) by (repeat split).
  assert (L : 3 < length sample_targets) by (cbn; lia).
  split.
  - apply (proj1 (long_target_list_truncated a_ready_component sample_targets
                    Q eq_refl L) None).
  - apply (long_target_list_truncated a_ready_component sample_targets Q eq_refl L).
Defined.

(** ** An invalid first target *)

Lemma playHintAnimation_skips :
  forall t rest k s,
    quiescent s -> isValid t = false ->
    tweens (engine (playHintAnimation (t :: rest) k s)) = [] /\
    timers (engine (playHintAnimation (t :: rest) k s)) = [] /\
    step (run 2 (playHintAnimation (t :: rest) k s)) = None /\
    option_map Node.worldPosition (hand (run 2 (playHintAnimation (t :: rest) k s)))
    = option_map Node.worldPosition (hand s) /\
    option_map Node.scale (hand (run 2 (playHintAnimation (t :: rest) k s)))
    = option_map Node.scale (hand s).
Proof.
  intros t rest k s Q V. unfold playHintAnimation. cbn [length Nat.ltb Nat.leb].
  change (firstn 3 (t :: rest)) with (t :: firstn 2 rest).
  destruct (hand s) as [h|] eqn:Hh.
  - unfold animateHandThroughTargets. rewrite V. cbn [negb].
    assert (Qa : quiescent (hand_setActive true h s)) by exact Q.
    destruct (run_resolved k (hand_setActive true h s) (Node.setActive true h)
                0 eq_refl Qa) as [EF Hstep].
    change (2 + 0) with 2 in EF, Hstep. rewrite Hstep, EF.
    destruct Q as (Qm & Qt & Qi). repeat split; assumption.
  - destruct (run_rejected k null_hand s 0 Q) as [EF Hstep].
    change (2 + 0) with 2 in EF, Hstep. rewrite Hstep, EF.
    destruct Q as (Qm & Qt & Qi).
    repeat split; try assumption.
    + cbn. now rewrite Hh.
    + cbn. now rewrite Hh.
Qed.

Lemma visited_invalid_first :
  forall s t rest, isValid t = false -> visited s (firstn 3 (t :: rest)) = [].
Proof.
  intros s t rest V. unfold visited.
  change (firstn 3 (t :: rest)) with (t :: firstn 2 rest).
  destruct (hand s); [now rewrite V | reflexivity].
Qed.

(** C6. When the first target of a session is invalid, through any entry
    point and from a state with no session and nothing pending: the request
    creates no timer and no tween, the two promise jobs that follow end the
    session, [hint-end] is the event right after [hint-start] and carries
    the same type, no move or press tween is ever started (the other
    targets are not looked at), and the pointer keeps its position and
    scale. *)
Theorem invalid_first_target_ends_at_once :
  forall (s : State) (t : TutorialTarget) (rest : list TutorialTarget),
    quiescent s -> isActive s = false -> isValid t = false ->
    (forall hintType,
        ends_at_once s (type_or_custom hintType)
          (showCustomHint (t :: rest) hintType s)) /\
    ends_at_once s INACTIVITY (showInactivityHint (Some (t :: rest)) s) /\
    ends_at_once s START_GAME (showStartHint (Some (t :: rest)) s) /\
    (forall ty, ty <> MISSION_FAIL ->
        ends_at_once s ty (showHint (Some ty) (Some (t :: rest)) s)).
Proof.
  intros s t rest Q Ha V.
  apply (flows_open s (t :: rest) (ends_at_once s) Ha); [congruence|].
  intros ty label log.
  destruct (opened_keeps log ty s) as (Qo & Ho & _).
  assert (Q' : quiescent (opened log ty s)) by (rewrite Qo; exact Q).
  destruct (playHintAnimation_skips t rest (mkHandlers ty label) _ Q' V)
    as (S1 & S2 & S3 & S4 & S5).
  assert (Hne : t :: rest <> []) by congruence.
  pose proof (opened_session_outcome log ty label s (t :: rest) Q Hne) as O.
  rewrite (run_more 2 24 _ (proj1 (Nat.leb_le 2 24) eq_refl) S3) in O.
  destruct O as (O1 & O2 & O3 & O4 & O5 & _).
  rewrite (visited_invalid_first s t rest V) in O4, O5.
  rewrite app_nil_r in O4. cbn [length] in O5. rewrite Nat.add_0_r in O5.
  rewrite Ho in S4, S5.
  unfold ends_at_once. repeat split; assumption.
Qed.

Lemma invalid_first_target_ends_at_once_witness :
  ends_at_once a_ready_component INACTIVITY
    (showInactivityHint (Some stale_targets) a_ready_component).
Proof.
  assert (Q : quiescent a_ready_component) by (repeat split).
  exact (proj1 (proj2 (invalid_first_target_ends_at_once a_ready_component
                         (mkTarget (Some 7) (Vec3.new 5 0 5) false) sample_targets
                         Q eq_refl eq_refl))).
Defined.

(** ** Where the pointer goes *)

(** C7. A valid target with world position (x, y, z) is animated by a move
    tween whose first turn leaves the pointer at (x+ox, y+oy, z+oz) for the
    configured offset (ox, oy, oz); the first target of a session is placed
    at the same sum directly.  With offset (0,1,0), a session on the one
    target (5,0,5) ends with the pointer at (5,1,5). *)
Theorem pointer_at_target_plus_offset :
  (forall (a : Anim) (s : State) (h : Node.t) (t : TutorialTarget),
      hand s = Some h ->
      microtasks (engine s) = [] -> tweens (engine s) = [] ->
      nth_error (anim_targets a) (currentIndex a) = Some t ->
      isValid t = true ->
      exists s',
        step (animateNextTarget a s) = Some s' /\
        option_map Node.worldPosition (hand s')
        = Some (Vec3.new
                  (Vec3.x (worldPosition t) + Vec3.x (handOffset (props s)))
                  (Vec3.y (worldPosition t) + Vec3.y (handOffset (props s)))
                  (Vec3.z (worldPosition t) + Vec3.z (handOffset (props s))))) /\
  (forall (t : TutorialTarget) (rest : list TutorialTarget) (k : Handlers)
          (s : State) (h : Node.t),
      hand s = Some h -> isValid t = true ->
      option_map Node.worldPosition (hand (animateHandThroughTargets (t :: rest) k s))
      = Some (Vec3.new
                (Vec3.x (worldPosition t) + Vec3.x (handOffset (props s)))
                (Vec3.y (worldPosition t) + Vec3.y (handOffset (props s)))
                (Vec3.z (worldPosition t) + Vec3.z (handOffset (props s))))) /\
  option_map Node.worldPosition
    (hand (run 24 (showCustomHint [mkTarget None (Vec3.new 5 0 5) true] None
                     (setHandOffset (Vec3.new 0 1 0) a_ready_component))))
  = Some (Vec3.new 5 1 5).
Proof.
  split; [|split].
  - intros a s h t Hh Hm Ht Hn V.
    rewrite (animateNextTarget_valid _ _ _ Hn V).
    destruct s as [p h0 ti ac r c [mq tq tm tk] tr].
    cbn in Hh, Hm, Ht. subst. eexists. split; reflexivity.
  - intros t rest k s h Hh V. unfold animateHandThroughTargets.
    rewrite V, Hh. reflexivity.
  - vm_compute. reflexivity.
Qed.

Lemma pointer_at_target_plus_offset_witness :
  exists s',
    step (animateNextTarget (mkAnim sample_targets 1 (mkHandlers CUSTOM ""))
            (setHandOffset (Vec3.new 0 1 0) a_ready_component)) = Some s' /\
    option_map Node.worldPosition (hand s') = Some (Vec3.new 1 3 3).
Proof.
  destruct (proj1 pointer_at_target_plus_offset
              (mkAnim sample_targets 1 (mkHandlers CUSTOM ""))
              (setHandOffset (Vec3.new 0 1 0) a_ready_component)
              _ (mkTarget None (Vec3.new 1 2 3) true)
              eq_refl eq_refl eq_refl eq_refl eq_refl) as (s' & E & P).
  exists s'. split; [exact E|]. rewrite P. vm_compute. reflexivity.
Defined.

(** ** Requests without targets *)

(** X3. [showInactivityHint] and [showStartHint] turn a request down when
    the target list they resolve is empty: the default resolver returns no
    target, and an empty array given explicitly is used as it is.  Only
    warnings are added to the trace. *)
Lemma no_targets_turned_down :
  forall s, isActive s = false ->
    showInactivityHint None s
    = set_trace (trace s ++ [no_default_targets; no_targets_for "inactivity"]) s /\
    showInactivityHint (Some []) s
    = set_trace (trace s ++ [no_targets_for "inactivity"]) s /\
    showStartHint None s
    = set_trace (trace s ++ [no_default_targets; no_targets_for "start"]) s /\
    showStartHint (Some []) s
    = set_trace (trace s ++ [no_targets_for "start"]) s.
Proof.
  intros s H. unfold showInactivityHint, showStartHint. rewrite H. cbn.
  unfold console, effect. cbn. rewrite <- !app_assoc. repeat split.
Qed.

(** C2 at the input where the code departs from it.  A custom hint request
    with an empty target list, in a state with no session and nothing
    pending, is not turned down: it logs no warning, sets the flag and
    emits [hint-start]; [playHintAnimation] then rejects, and two promise
    jobs later the error is logged, [hint-end] is emitted and the flag is
    cleared.  [showHint] with [CUSTOM] and no targets is this request. *)
Theorem custom_hint_without_targets_opens_a_session :
  forall (s : State) (hintType : option HintType),
    quiescent s -> isActive s = false ->
    isActive (showCustomHint [] hintType s) = true /\
    trace (showCustomHint [] hintType s)
    = trace s ++ [custom_opening 0;
                  Emit HINT_START (Some (type_or_custom hintType))] /\
    trace (run 2 (showCustomHint [] hintType s))
    = trace s ++ [custom_opening 0;
                  Emit HINT_START (Some (type_or_custom hintType));
                  custom_error (Reason "No valid targets provided");
                  Emit HINT_END (Some (type_or_custom hintType))] /\
    isActive (run 2 (showCustomHint [] hintType s)) = false /\
    step (run 2 (showCustomHint [] hintType s)) = None /\
    showHint (Some CUSTOM) None s = showCustomHint [] None s.
Proof.
  intros s hintType Q Ha.
  assert (E : showCustomHint [] hintType s
              = reject (mkHandlers (type_or_custom hintType) "Custom hint error:")
                  (Reason "No valid targets provided")
                  (opened [AStr "Showing custom hint with"; ALen 0; AStr "targets"]
                     (type_or_custom hintType) s)).
  { unfold showCustomHint. now rewrite Ha. }
  destruct (opened_keeps [AStr "Showing custom hint with"; ALen 0; AStr "targets"]
              (type_or_custom hintType) s) as (Qo & _).
  assert (Q' : quiescent
                 (opened [AStr "Showing custom hint with"; ALen 0; AStr "targets"]
                    (type_or_custom hintType) s)) by (rewrite Qo; exact Q).
  destruct (run_rejected (mkHandlers (type_or_custom hintType) "Custom hint error:")
              (Reason "No valid targets provided") _ 0 Q') as [EF Hstep].
  change (2 + 0) with 2 in EF, Hstep.
  rewrite E, Hstep, EF.
  unfold reject, enqueue, opened, emit, console, effect, set_isActive, set_trace,
    set_engine.
  cbn [trace isActive on_type on_label]. rewrite <- !app_assoc.
  repeat split.
  unfold showHint. now rewrite Ha.
Qed.

Lemma custom_hint_without_targets_opens_a_session_witness :
  isActive (showCustomHint [] None a_ready_component) = true /\
  emitted (trace (run 2 (showCustomHint [] None a_ready_component)))
  = [Emit HINT_START (Some CUSTOM); Emit HINT_END (Some CUSTOM)].
Proof.
  assert (Q : quiescent a_ready_component) by (repeat split).
  destruct (custom_hint_without_targets_opens_a_session a_ready_component None
              Q eq_refl) as (A & _ & T & _).
  split; [exact A|]. rewrite T. vm_compute. reflexivity.
Defined.

(** ** A rejected animation *)


(** C3 at an input where the code departs from it.  The pointer was made
    visible by [testHandPosition]; a custom hint is requested without
    targets, so that [playHintAnimation] rejects.  The error is logged and
    stays inside the promise chain, [hint-end] is emitted with the type and
    the flag is cleared, but the pointer actor is still visible when
    nothing is pending any more. *)
Theorem rejected_session_keeps_pointer_visible :
  option_map Node.active (hand a_visible_pointer) = Some true /\
  option_map Node.active
    (hand (run 2 (showCustomHint [] None a_visible_pointer))) = Some true /\
  isActive (run 2 (showCustomHint [] None a_visible_pointer)) = false /\
  emitted (trace (run 2 (showCustomHint [] None a_visible_pointer)))
  = [Emit HINT_START (Some CUSTOM); Emit HINT_END (Some CUSTOM)] /\
  step (run 2 (showCustomHint [] None a_visible_pointer)) = None /\
  forall n, run n (run 2 (showCustomHint [] None a_visible_pointer))
            = run 2 (showCustomHint [] None a_visible_pointer).
Proof.
  repeat split; try (vm_compute; reflexivity).
  intros n. apply run_quiescent. vm_compute. reflexivity.
Qed.

(** ** Setting the component up *)

(** X1. [setup] on a component that is not ready makes it ready, starts
    the periodic check with the idle counter at 0, and leaves flag and
    configuration alone.  With a prefab the pointer is an instance of it,
    hidden and with the configured scale; without one there is no pointer,
    a warning is logged, and the component is ready all the same.  A second
    [setup] (and [start], which calls it) changes nothing. *)
Theorem setup_makes_ready :
  forall s : State,
    (isReady s = false ->
       isReady (setup s) = true /\
       inactivityTime (setup s) = 0%float /\
       ticking (engine (setup s)) = true /\
       isActive (setup s) = isActive s /\
       props (setup s) = props s /\
       emitted (trace (setup s)) = emitted (trace s) /\
       (forall prefab, handPrefab (props s) = Some prefab ->
          hand (setup s)
          = Some (Node.make false (Node.worldPosition prefab) (handScale (props s)))) /\
       (handPrefab (props s) = None ->
          hand (setup s) = hand s /\
          In (Console WARN [AStr "Hand prefab not assigned"]) (trace (setup s)))) /\
    setup (setup s) = setup s /\
    start (setup s) = setup s.
Proof.
  intros s.
  assert (R : isReady (setup s) = true).
  { unfold setup. destruct (isReady s) eqn:E; [exact E | reflexivity]. }
  split; [|split; unfold start; unfold setup at 1; now rewrite R].
  intros Hr. unfold setup. rewrite Hr.
  destruct s as [[pf d sc off ps pd ms] h ti ac r c e tr]. cbn in Hr. subst.
  unfold createHand, startInactivityCheck, console, effect, emitted.
  destruct pf as [prefab|], c; cbn; rewrite ?filter_app; cbn;
    rewrite ?app_nil_r; repeat split; try reflexivity; try discriminate.
  - intros prefab' H. injection H as <-. reflexivity.
  - intros prefab' H. injection H as <-. reflexivity.
  - apply in_or_app. left. apply in_or_app. right. left. reflexivity.
  - apply in_or_app. left. apply in_or_app. right. left. reflexivity.
Qed.

Lemma setup_makes_ready_witness :
  isReady (setup (initial None)) = true /\
  hand (setup (initial None)) = None /\
  hand a_ready_component
  = Some (Node.make false (Vec3.new 0 0 0) (Vec3.new 1 1 1)).
Proof.
  destruct (proj1 (setup_makes_ready (initial None)) eq_refl)
    as (R & _ & _ & _ & _ & _ & _ & N).
  destruct (proj1 (setup_makes_ready
                     (initial (Some (Node.make true (Vec3.new 0 0 0)
                                       (Vec3.new 1 1 1))))) eq_refl)
    as (_ & _ & _ & _ & _ & _ & P & _).
  split; [exact R|]. split; [exact (proj1 (N eq_refl))|].
  exact (P _ eq_refl).
Defined.

(** ** Dispatch *)

(** X2. In every state, [showHint] is the show function of its type:
    without a type, or with [INACTIVITY], it is [showInactivityHint] on the
    same targets; with [START_GAME] it is [showStartHint]; with [CUSTOM] it
    is [showCustomHint] on the targets given, or on the empty list when
    none are given, with the default type. *)
Theorem showHint_dispatch :
  forall (s : State) (targets : option (list TutorialTarget)),
    showHint None targets s = showInactivityHint targets s /\
    showHint (Some INACTIVITY) targets s = showInactivityHint targets s /\
    showHint (Some START_GAME) targets s = showStartHint targets s /\
    showHint (Some CUSTOM) targets s
    = showCustomHint (match targets with Some ts => ts | None => [] end) None s /\
    type_or_custom None = CUSTOM.
Proof.
  intros s targets.
  unfold showHint, showInactivityHint, showStartHint, showCustomHint.
  destruct (isActive s); repeat split.
Qed.

Lemma no_targets_turned_down_witness :
  showStartHint (Some []) a_ready_component
  = set_trace (trace a_ready_component ++ [no_targets_for "start"])
      a_ready_component.
Proof.
  apply (no_targets_turned_down a_ready_component). reflexivity.
Defined.

(** ** The monitor on its own *)

Ltac split5 := split; [|split; [|split; [|split; [|split]]]].

Lemma checkInactivity_keeps :
  forall s,
    isActive (checkInactivity s) = isActive s /\
    engine (checkInactivity s) = engine s /\
    hand (checkInactivity s) = hand s /\
    props (checkInactivity s) = props s /\
    isReady (checkInactivity s) = isReady s /\
    exists l, trace (checkInactivity s) = trace s ++ l /\ only_player_inactive l.
Proof.
  intros s. unfold checkInactivity.
  destruct (isActive s) eqn:Ha; cbn [orb].
  { split5; try reflexivity; try assumption.
    exists []. rewrite app_nil_r. split; [reflexivity | constructor]. }
  destruct (isReady s) eqn:Hr; cbn [negb].
  2:{ split5; try reflexivity; try assumption.
      exists []. rewrite app_nil_r. split; [reflexivity | constructor]. }
  cbn [props set_inactivityTime inactivityTime].
  destruct (inactivityDelay (props s) <=? inactivityTime s + 1)%float.
  - rewrite showInactivityHint_default by exact Ha.
    unfold resetInactivityTimer, emit, console, effect, set_inactivityTime, set_trace.
    cbn [isActive engine hand props isReady trace].
    rewrite <- !app_assoc. split5; try reflexivity; try assumption.
    eexists. split; [reflexivity|].
    unfold only_player_inactive. cbn. repeat constructor.
  - cbn. split5; try reflexivity; try assumption.
    exists []. rewrite app_nil_r. split; [reflexivity | constructor].
Qed.

(** X4. However many ticks the periodic check runs, in whatever state, it
    never sets the active flag, never creates a tween, a timer or a promise
    job, never touches the pointer or the configuration, and the only event
    it emits is [player-inactive]: the default resolver
    [getDefaultTargets] returns no target, so the inactivity hint that the
    monitor requests never opens a session. *)
Theorem monitor_never_opens_a_session :
  forall (n : nat) (s : State),
    isActive (Nat.iter n checkInactivity s) = isActive s /\
    engine (Nat.iter n checkInactivity s) = engine s /\
    hand (Nat.iter n checkInactivity s) = hand s /\
    props (Nat.iter n checkInactivity s) = props s /\
    isReady (Nat.iter n checkInactivity s) = isReady s /\
    exists l, trace (Nat.iter n checkInactivity s) = trace s ++ l /\
              only_player_inactive l.
Proof.
  induction n as [|n IH]; intros s.
  - cbn. split5; try reflexivity. exists []. rewrite app_nil_r.
    split; [reflexivity | constructor].
  - change (Nat.iter (S n) checkInactivity s)
      with (checkInactivity (Nat.iter n checkInactivity s)).
    destruct (IH s) as (A & E & H & P & R & l & T & O).
    destruct (checkInactivity_keeps (Nat.iter n checkInactivity s))
      as (A' & E' & H' & P' & R' & l' & T' & O').
    split; [congruence|]. split; [congruence|]. split; [congruence|].
    split; [congruence|]. split; [congruence|].
    exists (l ++ l'). split.
    + rewrite T', T, app_assoc. reflexivity.
    + unfold only_player_inactive in *. rewrite emitted_app.
      apply Forall_app. now split.
Qed.

Lemma iter_add :
  forall (A : Type) (f : A -> A) n m x,
    Nat.iter (n + m) f x = Nat.iter n f (Nat.iter m f x).
Proof.
  intros A f n m x. induction n as [|n IH]; [reflexivity|].
  change (Nat.iter (S n + m) f x) with (f (Nat.iter (n + m) f x)).
  now rewrite IH.
Qed.

Lemma iter_S :
  forall (A : Type) (f : A -> A) n x, Nat.iter (S n) f x = f (Nat.iter n f x).
Proof. reflexivity. Qed.

Lemma checkInactivity_fires :
  forall s,
    isActive s = false -> isReady s = true ->
    (inactivityDelay (props s) <=? inactivityTime s + 1)%float = true ->
    checkInactivity s
    = set_inactivityTime 0%float
        (set_trace (trace s ++ [player_inactive_log (inactivityTime s + 1)%float;
                                Emit PLAYER_INACTIVE None;
                                no_default_targets;
                                no_targets_for "inactivity"]) s).
Proof.
  intros s Ha Hr Hge. unfold checkInactivity. rewrite Ha, Hr.
  cbn [orb negb props set_inactivityTime inactivityTime]. rewrite Hge.
  rewrite showInactivityHint_default by exact Ha.
  unfold resetInactivityTimer, emit, console, effect, set_inactivityTime, set_trace.
  cbn [props hand inactivityTime isActive isReady inactivityCheck engine trace].
  now rewrite <- !app_assoc.
Qed.

Lemma fifteen_ticks :
  forall s,
    isActive s = false -> isReady s = true ->
    inactivityDelay (props s) = 15%float -> inactivityTime s = 0%float ->
    Nat.iter 14 checkInactivity s = set_inactivityTime 14%float s /\
    Nat.iter 15 checkInactivity s = set_trace (trace s ++ inactive_burst) s.
Proof.
  intros s Ha Hr Hd Ht.
  assert (E14 : Nat.iter 14 checkInactivity s = set_inactivityTime 14%float s).
  { destruct s as [[pf d sc off ps pd ms] h ti ac r c e tr].
    cbn in Ha, Hr, Hd, Ht. subst. vm_compute. reflexivity. }
  split; [exact E14|].
  rewrite (iter_S _ checkInactivity 14), E14, checkInactivity_fires.
  - destruct s as [[pf d sc off ps pd ms] h ti ac r c e tr].
    cbn in Ha, Hr, Hd, Ht. subst. reflexivity.
  - exact Ha.
  - exact Hr.
  - cbn [props set_inactivityTime inactivityTime]. rewrite Hd. reflexivity.
Qed.

(** X5. With the delay at its default of 15 and the idle counter at 0, on a
    ready component with no session: fourteen ticks only count, the
    fifteenth logs, emits [player-inactive], logs the two warnings of the
    missing targets and puts the counter back to 0; so every further
    fifteen ticks repeat the same four effects, and after [15 * k] ticks
    exactly [k] events were emitted, all [player-inactive].  A call of
    [resetInactivityTimer] at any moment starts such a period afresh. *)
Theorem player_inactive_every_fifteen_ticks :
  forall (k : nat) (s : State),
    isActive s = false -> isReady s = true ->
    inactivityDelay (props s) = 15%float -> inactivityTime s = 0%float ->
    Nat.iter (15 * k) checkInactivity s
    = set_trace (trace s ++ concat (repeat inactive_burst k)) s /\
    emitted (concat (repeat inactive_burst k))
    = repeat (Emit PLAYER_INACTIVE None) k /\
    Nat.iter 14 checkInactivity (Nat.iter (15 * k) checkInactivity s)
    = set_inactivityTime 14%float (Nat.iter (15 * k) checkInactivity s) /\
    forall s', isActive s' = false -> isReady s' = true ->
      inactivityDelay (props s') = 15%float ->
      trace (Nat.iter 14 checkInactivity (resetInactivityTimer s')) = trace s' /\
      trace (Nat.iter 15 checkInactivity (resetInactivityTimer s'))
      = trace s' ++ inactive_burst.
Proof.
  assert (Main : forall k s,
             isActive s = false -> isReady s = true ->
             inactivityDelay (props s) = 15%float -> inactivityTime s = 0%float ->
             Nat.iter (15 * k) checkInactivity s
             = set_trace (trace s ++ concat (repeat inactive_burst k)) s).
  { induction k as [|k IH]; intros s Ha Hr Hd Ht.
    - cbn. rewrite app_nil_r. now destruct s.
    - replace (15 * S k) with (15 + 15 * k) by lia.
      rewrite iter_add, (IH s Ha Hr Hd Ht).
      rewrite (proj2 (fifteen_ticks (set_trace _ s) Ha Hr Hd Ht)).
      cbn [trace set_trace repeat concat]. unfold set_trace.
      cbn [props hand inactivityTime isActive isReady inactivityCheck engine trace].
      rewrite <- app_assoc. do 2 f_equal.
      clear. induction k as [|k IH]; cbn [repeat concat].
      + now rewrite app_nil_r.
      + now rewrite <- app_assoc, IH. }
  intros k s Ha Hr Hd Ht. split; [now apply Main|]. split; [|split].
  - clear. induction k as [|k IH]; [reflexivity|].
    cbn [repeat concat]. rewrite emitted_app, IH. reflexivity.
  - rewrite (Main k s Ha Hr Hd Ht).
    exact (proj1 (fifteen_ticks
                    (set_trace (trace s ++ concat (repeat inactive_burst k)) s)
                    Ha Hr Hd Ht)).
  - intros s' Ha' Hr' Hd'.
    destruct (fifteen_ticks (resetInactivityTimer s') Ha' Hr' Hd' eq_refl)
      as [E14 E15].
    rewrite E14, E15. split; reflexivity.
Qed.

Lemma player_inactive_every_fifteen_ticks_witness :
  emitted (trace (Nat.iter (15 * 2) checkInactivity a_ready_component))
  = [Emit PLAYER_INACTIVE None; Emit PLAYER_INACTIVE None].
Proof.
  rewrite (proj1 (player_inactive_every_fifteen_ticks 2 a_ready_component
                    eq_refl eq_refl eq_refl eq_refl)).
  vm_compute. reflexivity.
Defined.

(** ** Whole sessions *)

Lemma step_None_quiescent : forall s, step s = None -> quiescent s.
Proof.
  intros s H. unfold step in H. unfold quiescent.
  destruct (microtasks (engine s)); [|discriminate H].
  destruct (tweens (engine s)) as [|[|act rest] tws]; try discriminate H.
  destruct (timers (engine s)); [|discriminate H].
  repeat split.
Qed.







(** ** The settle delay and what follows it *)

(** From the pending [scheduleOnce] callback of a session to its end. *)
Lemma run_settled :
  forall a s h d n,
    hand s = Some h ->
    microtasks (engine s) = [] -> tweens (engine s) = [] ->
    timers (engine s) = [mkTimer d (CallAnimateNext a)] ->
    currentIndex a = 0 ->
    exists hw,
      hand (sweep (anim_targets a) a (set_engine (set_timers [] (engine s)) s))
      = Some hw /\
      run (S (7 * count_valid (anim_targets a) + (2 + n))) s
      = emit HINT_END (Some (on_type (anim_owner a)))
          (set_isActive false
             (hand_setActive false hw
                (sweep (anim_targets a) a
                   (set_engine (set_timers [] (engine s)) s)))) /\
      step (run (S (7 * count_valid (anim_targets a) + (2 + n))) s) = None.
Proof.
  intros a s h d n Hh Hm Ht Hti Hi.
  set (idle := set_engine (set_timers [] (engine s)) s).
  assert (E1 : forall m, run (S m) s = run m (animateNextTarget a idle)).
  { intros m. subst idle.
    destruct s as [p h0 ti ac r c [mq tq tm tk] tr].
    cbn in Hh, Hm, Ht, Hti. subst. reflexivity. }
  assert (Hhi : hand idle = Some h) by exact Hh.
  assert (Hmi : microtasks (engine idle) = []) by exact Hm.
  assert (Hti' : tweens (engine idle) = []) by exact Ht.
  destruct (sweep_keeps (anim_targets a) a idle h Hhi)
    as ((hw & Hw & Aw) & Ew & _).
  assert (Sk : skipn (currentIndex a) (anim_targets a) = anim_targets a)
    by (rewrite Hi; reflexivity).
  assert (Qw : quiescent (sweep (anim_targets a) a idle)).
  { unfold quiescent. rewrite Ew. repeat split; assumption || reflexivity. }
  exists hw. split; [exact Hw|].
  rewrite E1, (run_sweep (anim_targets a) a idle h _ Sk Hhi Hmi Hti').
  destruct (run_resolved (anim_owner a) (sweep (anim_targets a) a idle) hw n Hw Qw)
    as [EF Hstep].
  rewrite Hstep. split; [exact EF | reflexivity].
Qed.

Lemma visit_hand :
  forall a t s h,
    hand s = Some h ->
    hand (visit a t s)
    = Some (Node.make (Node.active h) (offsetPosition s (worldPosition t))
              (handScale (props s))).
Proof.
  intros a t s h Hh. destruct s as [p h0 ti ac r c e tr]. cbn in Hh. subst.
  unfold visit, effect, apply_prop. cbn. now rewrite clone_eq.
Qed.

Lemma last_cons : forall (A : Type) (l : list A) x d, last (x :: l) d = last l x.
Proof.
  intros A l. induction l as [|y l IH]; intros x d; [reflexivity|].
  change (last (x :: y :: l) d) with (last (y :: l) d).
  now rewrite !IH.
Qed.

Lemma sweep_pointer :
  forall rest a s h,
    hand s = Some h ->
    exists h',
      hand (sweep rest a s) = Some h' /\
      Node.active h' = Node.active h /\
      Node.worldPosition h'
      = last (map (fun t => offsetPosition s (worldPosition t)) (filter isValid rest))
          (Node.worldPosition h) /\
      Node.scale h'
      = match filter isValid rest with
        | [] => Node.scale h
        | _ :: _ => handScale (props s)
        end.
Proof.
  induction rest as [|t rest IH]; intros a s h Hh.
  - exists h. repeat split. exact Hh.
  - cbn [sweep filter]. destruct (isValid t) eqn:V.
    + pose proof (visit_hand a t s h Hh) as Hv.
      destruct (visit_keeps a t s h Hh) as (_ & _ & P & _).
      destruct (IH (advance a) (visit a t s) _ Hv) as (h' & H1 & H2 & H3 & H4).
      exists h'. split; [exact H1|]. split; [exact H2|]. split.
      * rewrite H3. cbn [map Node.worldPosition]. rewrite last_cons.
        f_equal. apply map_ext. intros t'. now apply offsetPosition_props.
      * rewrite H4, P. cbn [Node.scale]. now destruct (filter isValid rest).
    + apply (IH (advance a) s h Hh).
Qed.

(** X8. When a session whose first target is valid has run to its end, the
    pointer is hidden, it rests on the offset position of the last valid
    target among the first three, and its scale is the configured one,
    whatever it was before: each press animation ends on [handScale]. *)
Theorem pointer_rests_on_last_valid_target :
  forall (s : State) (h : Node.t) (t : TutorialTarget) (rest : list TutorialTarget),
    quiescent s -> isActive s = false -> hand s = Some h -> isValid t = true ->
    let resting (ty : HintType) (s1 : State) :=
      hand (run 24 s1)
      = Some (Node.make false
                (last (visited s (firstn 3 (t :: rest))) (Node.worldPosition h))
                (handScale (props s))) in
    (forall hintType,
        resting (type_or_custom hintType) (showCustomHint (t :: rest) hintType s)) /\
    resting INACTIVITY (showInactivityHint (Some (t :: rest)) s) /\
    resting START_GAME (showStartHint (Some (t :: rest)) s) /\
    (forall ty, ty <> MISSION_FAIL ->
        resting ty (showHint (Some ty) (Some (t :: rest)) s)).
Proof.
  intros s h t rest Q Ha Hh V resting.
  assert (Hne : t :: rest <> []) by discriminate.
  apply (flows_open s (t :: rest) resting Ha Hne).
  intros ty label log. unfold resting.
  pose proof (count_valid_firstn3 (t :: rest)) as Hc.
  assert (Hvis : visited s (firstn 3 (t :: rest))
                 = map (fun t' => offsetPosition s (worldPosition t'))
                     (filter isValid (t :: firstn 2 rest))).
  { unfold visited. rewrite Hh.
    change (firstn 3 (t :: rest)) with (t :: firstn 2 rest).
    cbv beta iota. now rewrite V. }
  rewrite Hvis.
  change (firstn 3 (t :: rest)) with (t :: firstn 2 rest) in Hc.
  set (hint := t :: firstn 2 rest) in *.
  set (o := opened log ty s).
  set (k := mkHandlers ty label).
  set (a := mkAnim hint 0 k).
  set (placedHand := Node.setWorldPosition (offsetPosition o (worldPosition t))
                       (Node.setActive true h)).
  set (waiting := scheduleOnce (CallAnimateNext a) 0.5
                    (set_hand (Some placedHand) (hand_setActive true h o))).
  assert (E : playHintAnimation (t :: rest) k o = waiting).
  { unfold playHintAnimation. cbn [length Nat.ltb Nat.leb].
    change (hand o) with (hand s). rewrite Hh.
    change (firstn 3 (t :: rest)) with hint.
    unfold animateHandThroughTargets, hint. rewrite V. reflexivity. }
  rewrite E. destruct Q as (Qm & Qt & Qi).
  assert (Wt : timers (engine waiting) = [mkTimer 0.5 (CallAnimateNext a)]).
  { unfold waiting, scheduleOnce. cbn [engine set_engine timers set_timers].
    change (timers (engine _)) with (timers (engine s)). now rewrite Qi. }
  destruct (run_settled a waiting placedHand _ (21 - 7 * count_valid hint)
              eq_refl Qm Qt Wt eq_refl) as (hw & Hw & EF & _).
  change (anim_targets a) with hint in Hw, EF.
  replace (S (7 * count_valid hint + (2 + (21 - 7 * count_valid hint))))
    with 24 in EF by lia.
  rewrite EF.
  change (hand (emit HINT_END (Some (on_type (anim_owner a)))
                  (set_isActive false
                     (hand_setActive false hw
                        (sweep hint a
                           (set_engine (set_timers [] (engine waiting)) waiting))))))
    with (Some (Node.setActive false hw)).
  destruct (sweep_pointer hint a
              (set_engine (set_timers [] (engine waiting)) waiting) placedHand eq_refl)
    as (h' & H1 & H2 & H3 & H4).
  rewrite Hw in H1. injection H1 as <-.
  unfold Node.setActive. rewrite H3, H4.
  f_equal. f_equal.
  - unfold hint. cbn [filter]. rewrite V. cbn [map]. rewrite !last_cons.
    reflexivity.
  - unfold hint. cbn [filter]. rewrite V. reflexivity.
Qed.

Lemma pointer_rests_on_last_valid_target_witness :
  hand (run 24 (showCustomHint sample_targets None a_ready_component))
  = Some (Node.make false (Vec3.new 4 4 4) (Vec3.new 1 1 1)).
Proof.
  assert (Q : quiescent a_ready_component) by (repeat split).
  refine (eq_trans
            (proj1 (pointer_rests_on_last_valid_target a_ready_component
                      _ (mkTarget None (Vec3.new 5 0 5) true)
                      (tl sample_targets) Q eq_refl eq_refl eq_refl) None) _).
  vm_compute. reflexivity.
Defined.

(** X9. [stop] called right after a request whose first target is valid,
    that is during the settle delay, ends the session for the flag and the
    listeners ([hint-end] without payload) but does not cancel it: the
    [scheduleOnce] callback is still pending and is not unscheduled, so the
    animation goes through the targets as if nothing had happened, and at
    its end [hint-end] is emitted a second time, now with the type. *)
Theorem stop_during_settle_does_not_cancel :
  forall (s : State) (h : Node.t) (t : TutorialTarget) (rest : list TutorialTarget),
    quiescent s -> isActive s = false -> hand s = Some h -> isValid t = true ->
    (forall hintType,
        outlives_stop s (t :: rest) (type_or_custom hintType)
          (showCustomHint (t :: rest) hintType s)) /\
    outlives_stop s (t :: rest) INACTIVITY (showInactivityHint (Some (t :: rest)) s) /\
    outlives_stop s (t :: rest) START_GAME (showStartHint (Some (t :: rest)) s) /\
    (forall ty, ty <> MISSION_FAIL ->
        outlives_stop s (t :: rest) ty (showHint (Some ty) (Some (t :: rest)) s)).
Proof.
  intros s h t rest Q Ha Hh V.
  assert (Hne : t :: rest <> []) by discriminate.
  apply (flows_open s (t :: rest) (outlives_stop s (t :: rest)) Ha Hne).
  intros ty label log. unfold outlives_stop.
  pose proof (count_valid_firstn3 (t :: rest)) as Hc.
  assert (Hvis : visited s (firstn 3 (t :: rest))
                 = map (fun t' => offsetPosition s (worldPosition t'))
                     (filter isValid (t :: firstn 2 rest))).
  { unfold visited. rewrite Hh.
    change (firstn 3 (t :: rest)) with (t :: firstn 2 rest).
    cbv beta iota. now rewrite V. }
  rewrite Hvis.
  change (firstn 3 (t :: rest)) with (t :: firstn 2 rest) in Hc.
  set (hint := t :: firstn 2 rest) in *.
  set (o := opened log ty s).
  set (k := mkHandlers ty label).
  set (a := mkAnim hint 0 k).
  set (placedHand := Node.setWorldPosition (offsetPosition o (worldPosition t))
                       (Node.setActive true h)).
  set (waiting := scheduleOnce (CallAnimateNext a) 0.5
                    (set_hand (Some placedHand) (hand_setActive true h o))).
  assert (E : playHintAnimation (t :: rest) k o = waiting).
  { unfold playHintAnimation. cbn [length Nat.ltb Nat.leb].
    change (hand o) with (hand s). rewrite Hh.
    change (firstn 3 (t :: rest)) with hint.
    unfold animateHandThroughTargets, hint. rewrite V. reflexivity. }
  rewrite E. destruct Q as (Qm & Qt & Qi).
  assert (Wt : timers (engine waiting) = [mkTimer 0.5 (CallAnimateNext a)]).
  { unfold waiting, scheduleOnce. cbn [engine set_engine timers set_timers].
    change (timers (engine _)) with (timers (engine s)). now rewrite Qi. }
  set (stopped := emit HINT_END None
                    (set_isActive false
                       (hand_setActive false placedHand (tween_stop waiting)))).
  assert (Es : stop waiting = stopped) by reflexivity.
  rewrite Es.
  assert (St : timers (engine stopped) = timers (engine waiting)) by reflexivity.
  assert (Sm : microtasks (engine stopped) = []) by exact Qm.
  assert (Sw : tweens (engine stopped) = []) by reflexivity.
  assert (Str : trace stopped
                = trace s ++ [Console LOG log; Emit HINT_START (Some ty);
                              TweenStop; Emit HINT_END None]).
  { cbv [stopped tween_stop waiting o opened emit console effect set_trace
           scheduleOnce set_engine set_hand hand_setActive set_isActive trace].
    rewrite <- !app_assoc. reflexivity. }
  destruct (run_settled a stopped (Node.setActive false placedHand) 0.5
              (21 - 7 * count_valid hint) eq_refl Sm Sw
              (eq_trans St Wt) eq_refl) as (hw & Hw & EF & Hstep).
  change (anim_targets a) with hint in Hw, EF, Hstep.
  replace (S (7 * count_valid hint + (2 + (21 - 7 * count_valid hint))))
    with 24 in EF, Hstep by lia.
  set (idle := set_engine (set_timers [] (engine stopped)) stopped) in *.
  destruct (sweep_keeps hint a idle (Node.setActive false placedHand) eq_refl)
    as (_ & _ & Pw & _ & _ & _ & Mw & Vw & _).
  destruct (ended_session _ _ _ EF) as (Ft & _).
  change (trace (hand_setActive false hw (sweep hint a idle)))
    with (trace (sweep hint a idle)) in Ft.
  split; [reflexivity|].
  split; [rewrite Wt; discriminate|].
  split; [exact St|].
  split; [exact Hstep|].
  rewrite Ft, emitted_app, moves_app, Mw, Vw.
  change (trace idle) with (trace stopped). rewrite Str.
  rewrite emitted_app, moves_app.
  rewrite (map_ext _ _ (fun t' => offsetPosition_props s idle (worldPosition t')
                                     (eq_refl : props idle = props s))).
  split.
  - rewrite <- app_assoc. reflexivity.
  - change (moves [Console LOG log; Emit HINT_START (Some ty); TweenStop;
                   Emit HINT_END None]) with (@nil Vec3.t).
    change (moves [Emit HINT_END (Some (on_type (anim_owner a)))])
      with (@nil Vec3.t).
    now rewrite !app_nil_r.
Qed.

Lemma stop_during_settle_does_not_cancel_witness :
  outlives_stop a_ready_component sample_targets CUSTOM
    (showCustomHint sample_targets None a_ready_component).
Proof.
  assert (Q : quiescent a_ready_component) by (repeat split).
  exact (proj1 (stop_during_settle_does_not_cancel a_ready_component _
                  (mkTarget None (Vec3.new 5 0 5) true) (tl sample_targets)
                  Q eq_refl eq_refl eq_refl) None).
Defined.

(** ** One session after another *)

Lemma session_outcome_of_custom :
  forall s targets hintType,
    quiescent s -> isActive s = false -> targets <> [] ->
    session_outcome s (type_or_custom hintType) targets
      (run 24 (showCustomHint targets hintType s)).
Proof.
  intros s targets hintType Q Ha Hne. unfold showCustomHint. rewrite Ha.
  apply opened_session_outcome; assumption.
Qed.

(** X10. Sessions compose: once a custom hint has run to its end, the
    component is back in a state with no session and nothing pending, so a
    second custom hint is accepted and runs in the same way; the events
    emitted are the two start/end pairs in order, and the move tweens are
    those of the first session followed by those of the second. *)
Theorem sessions_follow_one_another :
  forall (s : State) (first second : list TutorialTarget)
         (ty1 ty2 : option HintType),
    quiescent s -> isActive s = false -> first <> [] -> second <> [] ->
    let s1 := run 24 (showCustomHint first ty1 s) in
    let s2 := run 24 (showCustomHint second ty2 s1) in
    quiescent s1 /\ isActive s1 = false /\
    step s2 = None /\ isActive s2 = false /\
    emitted (trace s2)
    = emitted (trace s)
      ++ [Emit HINT_START (Some (type_or_custom ty1));
          Emit HINT_END (Some (type_or_custom ty1));
          Emit HINT_START (Some (type_or_custom ty2));
          Emit HINT_END (Some (type_or_custom ty2))] /\
    moves (trace s2)
    = moves (trace s) ++ visited s (firstn 3 first) ++ visited s1 (firstn 3 second).
Proof.
  intros s first second ty1 ty2 Q Ha N1 N2 s1 s2.
  destruct (session_outcome_of_custom s first ty1 Q Ha N1)
    as (A1 & A2 & A3 & A4 & _).
  fold s1 in A1, A2, A3, A4.
  pose proof (step_None_quiescent _ A1) as Q1.
  destruct (session_outcome_of_custom s1 second ty2 Q1 A2 N2)
    as (B1 & B2 & B3 & B4 & _).
  fold s2 in B1, B2, B3, B4.
  split; [exact Q1|]. split; [exact A2|]. split; [exact B1|]. split; [exact B2|].
  rewrite B3, B4, A3, A4, <- !app_assoc. split; reflexivity.
Qed.

Lemma sessions_follow_one_another_witness :
  emitted (trace (run 24 (showCustomHint stale_targets (Some START_GAME)
                            (run 24 (showCustomHint sample_targets None
                                       a_ready_component)))))
  = [Emit HINT_START (Some CUSTOM); Emit HINT_END (Some CUSTOM);
     Emit HINT_START (Some START_GAME); Emit HINT_END (Some START_GAME)].
Proof.
  assert (Q : quiescent a_ready_component) by (repeat split).
  assert (N1 : sample_targets <> []) by discriminate.
  assert (N2 : stale_targets <> []) by discriminate.
  destruct (sessions_follow_one_another a_ready_component sample_targets
              stale_targets None (Some START_GAME) Q eq_refl N1 N2)
    as (_ & _ & _ & _ & E & _).
  exact E.
Defined.

(** ** The position test *)

(** X11. [testHandPosition] does nothing without a pointer or on an invalid
    target.  Otherwise it shows the pointer at the target's position plus
    the offset, keeping its scale, and logs; it opens no session: flag,
    pending work, configuration and emitted events are untouched.  Nothing
    hides the pointer again: with no session active, [stop] leaves the
    state, and so the visible pointer, as it is. *)
Theorem testHandPosition_shows_pointer :
  forall (s : State) (t : TutorialTarget),
    (hand s = None \/ isValid t = false -> testHandPosition t s = s) /\
    (forall h, hand s = Some h -> isValid t = true ->
       hand (testHandPosition t s)
       = Some (Node.make true
                 (Vec3.new
                    (Vec3.x (worldPosition t) + Vec3.x (handOffset (props s)))
                    (Vec3.y (worldPosition t) + Vec3.y (handOffset (props s)))
                    (Vec3.z (worldPosition t) + Vec3.z (handOffset (props s))))
                 (Node.scale h)) /\
       isActive (testHandPosition t s) = isActive s /\
       engine (testHandPosition t s) = engine s /\
       props (testHandPosition t s) = props s /\
       inactivityTime (testHandPosition t s) = inactivityTime s /\
       emitted (trace (testHandPosition t s)) = emitted (trace s) /\
       (isActive s = false ->
          stop (testHandPosition t s) = testHandPosition t s)).
Proof.
  intros s t. split.
  - intros [H|H]; unfold testHandPosition.
    + now rewrite H.
    + rewrite H. now destruct (hand s).
  - intros h Hh V. unfold testHandPosition. rewrite Hh, V. cbn [negb].
    destruct s as [p h0 ti ac r c e tr]. cbn in Hh. subst.
    unfold console, effect, emitted, stop. cbn.
    rewrite filter_app. cbn. rewrite app_nil_r.
    repeat split. intros ->. reflexivity.
Qed.

Lemma testHandPosition_shows_pointer_witness :
  hand a_visible_pointer
  = Some (Node.make true (Vec3.new 5 0 5) (Vec3.new 1 1 1)) /\
  stop a_visible_pointer = a_visible_pointer.
Proof.
  destruct (proj2 (testHandPosition_shows_pointer a_ready_component
                     (mkTarget None (Vec3.new 5 0 5) true))
              _ eq_refl eq_refl) as (H & _ & _ & _ & _ & _ & S).
  split; [|exact (S eq_refl)].
  refine (eq_trans H _). vm_compute. reflexivity.
Defined.

(** ** Making targets *)

Lemma filter_all_valid :
  forall ps, filter isValid (createTargetsFromPositions ps)
             = createTargetsFromPositions ps.
Proof.
  induction ps as [|p ps IH]; [reflexivity|].
  unfold createTargetsFromPositions in *. cbn. now rewrite IH.
Qed.

(** X12. [createTargetsFromPositions] makes one valid target without node
    for each position, in order, so the positions can be read back; a
    custom hint on such targets, on a component with a pointer and nothing
    pending, moves the pointer to the first three positions plus the
    offset, in order, and to nothing else. *)
Theorem targets_from_positions :
  forall ps : list Vec3.t,
    map worldPosition (createTargetsFromPositions ps) = ps /\
    Forall (fun t => isValid t = true /\ node t = None)
      (createTargetsFromPositions ps) /\
    forall (s : State) (h : Node.t) (ty : option HintType),
      quiescent s -> isActive s = false -> hand s = Some h -> ps <> [] ->
      moves (trace (run 24 (showCustomHint (createTargetsFromPositions ps) ty s)))
      = moves (trace s) ++ map (offsetPosition s) (firstn 3 ps).
Proof.
  intros ps. split; [|split].
  - unfold createTargetsFromPositions. rewrite map_map. cbn. apply map_id.
  - unfold createTargetsFromPositions. apply Forall_forall.
    intros t Ht. apply in_map_iff in Ht. destruct Ht as (p & <- & _). now split.
  - intros s h ty Q Ha Hh Hne.
    assert (N : createTargetsFromPositions ps <> [])
      by (destruct ps; [congruence | discriminate]).
    destruct (session_outcome_of_custom s _ ty Q Ha N) as (_ & _ & _ & M & _).
    rewrite M. f_equal.
    unfold visited. rewrite Hh.
    replace (firstn 3 (createTargetsFromPositions ps))
      with (createTargetsFromPositions (firstn 3 ps))
      by (unfold createTargetsFromPositions; symmetry; apply firstn_map).
    rewrite filter_all_valid.
    destruct ps as [|p ps]; [congruence|].
    change (firstn 3 (p :: ps)) with (p :: firstn 2 ps).
    unfold createTargetsFromPositions. cbn [map isValid].
    rewrite map_map. reflexivity.
Qed.

Lemma targets_from_positions_witness :
  moves (trace (run 24 (showCustomHint sample_targets None a_ready_component)))
  = [Vec3.new 5 0 5; Vec3.new 1 2 3; Vec3.new 4 4 4].
Proof.
  assert (Q : quiescent a_ready_component) by (repeat split).
  refine (eq_trans
            (proj2 (proj2 (targets_from_positions
                             [Vec3.new 5 0 5; Vec3.new 1 2 3; Vec3.new 4 4 4;
                              Vec3.new 9 9 9; Vec3.new 7 7 7]))
               a_ready_component _ None Q eq_refl eq_refl _) _).
  - discriminate.
  - vm_compute. reflexivity.
Defined.

(** X13. [createTargetsFromNodes] turns an array of existing nodes into
    their snapshots, in order: identity, world position and validity as
    they are at the call.  If some element is [null] the call throws (the
    read of [node.worldPosition] comes before the test [node && ...]), so
    a result always has one target per node and never stands for a missing
    node. *)
Theorem targets_from_nodes :
  forall nodes : list (option SceneNode),
    (forall ns, nodes = map Some ns ->
       createTargetsFromNodes nodes = inr (map snapshot ns)) /\
    (In None nodes -> exists e, createTargetsFromNodes nodes = inl e) /\
    (forall targets, createTargetsFromNodes nodes = inr targets ->
       length targets = length nodes /\ ~ In None nodes).
Proof.
  induction nodes as [|[n|] nodes (IH1 & IH2 & IH3)].
  - split; [|split].
    + intros [|n ns] H; [reflexivity | discriminate H].
    + intros [].
    + intros targets H. injection H as <-. split; [reflexivity | intros []].
  - split; [|split].
    + intros [|n' ns] H; [discriminate H|]. injection H as -> ->.
      cbn. now rewrite (IH1 ns eq_refl).
    + intros [H|H]; [discriminate H|].
      destruct (IH2 H) as (e & E). exists e. cbn. now rewrite E.
    + intros targets H. cbn in H.
      destruct (createTargetsFromNodes nodes) as [e|ts]; [discriminate H|].
      injection H as <-. destruct (IH3 ts eq_refl) as [L N]. split.
      * cbn. now rewrite L.
      * intros [H|H]; [discriminate H | exact (N H)].
  - split; [|split].
    + intros [|n' ns] H; discriminate H.
    + intros _. eexists. reflexivity.
    + intros targets H. discriminate H.
Qed.

Lemma targets_from_nodes_witness :
  createTargetsFromNodes
    [Some (mkSceneNode 1 (Vec3.new 5 0 5) true);
     Some (mkSceneNode 2 (Vec3.new 1 2 3) false)]
  = inr [mkTarget (Some 1) (Vec3.new 5 0 5) true;
         mkTarget (Some 2) (Vec3.new 1 2 3) false] /\
  exists e,
    createTargetsFromNodes [Some (mkSceneNode 1 (Vec3.new 5 0 5) true); None]
    = inl e.
Proof.
  split.
  - exact (proj1 (targets_from_nodes _)
             [mkSceneNode 1 (Vec3.new 5 0 5) true;
              mkSceneNode 2 (Vec3.new 1 2 3) false] eq_refl).
  - apply (proj1 (proj2 (targets_from_nodes
                           [Some (mkSceneNode 1 (Vec3.new 5 0 5) true); None]))).
    right. left. reflexivity.
Defined.

(** ** Configuration at run time *)

(** X14. The setters can be called while a session runs: they touch
    neither the flag nor the tweens, timers and promise jobs that are
    pending, so a tween in flight keeps the values it was built with.  The
    next step reads the new values: after [setHandOffset] and
    [setMoveSpeed] the next move tween goes to the target's position plus
    the new offset, over the new duration; after [setPressAnimationScale]
    the next press tween scales X and Y by the new multiplier. *)
Theorem setters_apply_to_the_next_step :
  forall (s : State) (a : Anim) (t : TutorialTarget)
         (offset : Vec3.t) (speed multiplier : float),
    nth_error (anim_targets a) (currentIndex a) = Some t -> isValid t = true ->
    let s' := setPressAnimationScale multiplier
                (setMoveSpeed speed (setHandOffset offset s)) in
    engine s' = engine s /\ isActive s' = isActive s /\ hand s' = hand s /\
    animateNextTarget a s'
    = tween_start
        [To speed
            (PropWorldPosition
               (Vec3.new (Vec3.x (worldPosition t) + Vec3.x offset)
                         (Vec3.y (worldPosition t) + Vec3.y offset)
                         (Vec3.z (worldPosition t) + Vec3.z offset)));
         Call (CallPress a)] s' /\
    playPressAnimation a s'
    = tween_start
        [To (pressAnimationDuration (props s))
            (PropScale
               (Vec3.new (Vec3.x (handScale (props s)) * multiplier)
                         (Vec3.y (handScale (props s)) * multiplier)
                         (Vec3.z (handScale (props s)))));
         To (pressAnimationDuration (props s)) (PropScale (handScale (props s)));
         Delay 0.3;
         Call (CallResolvePress a)] s'.
Proof.
  intros s a t offset speed multiplier Hn V s'.
  split; [reflexivity|]. split; [reflexivity|]. split; [reflexivity|]. split.
  - rewrite (animateNextTarget_valid a s' t Hn V). reflexivity.
  - unfold playPressAnimation. rewrite clone_eq. reflexivity.
Qed.

Lemma setters_apply_to_the_next_step_witness :
  moves (trace (animateNextTarget
                  (mkAnim sample_targets 0 (mkHandlers CUSTOM ""))
                  (setPressAnimationScale 2
                     (setMoveSpeed 3
                        (setHandOffset (Vec3.new 0 1 0) a_ready_component)))))
  = [Vec3.new 5 1 5].
Proof.
  rewrite (proj1 (proj2 (proj2 (proj2
             (setters_apply_to_the_next_step a_ready_component
                (mkAnim sample_targets 0 (mkHandlers CUSTOM ""))
                (mkTarget None (Vec3.new 5 0 5) true)
                (Vec3.new 0 1 0) 3 2 eq_refl eq_refl))))).
  vm_compute. reflexivity.
Defined.



(** X16. What the setters of the pointer's look store can be read back:
    [getHandScale] after [setHandScale] gives the scale set, which the
    pointer, if there is one, has as well; [setHandScaleUniform] sets the
    three components alike; [getHandOffset] after [setHandOffset] gives the
    offset set, and after [setHandOffsetXY] the new X and Y with the Z that
    was there before.  [setInactivityDelay] also puts the idle counter back
    to 0.  None of them changes the flag or what is pending. *)
Theorem configuration_reads_back :
  forall (s : State) (v : Vec3.t) (k x y seconds : float),
    getHandScale (setHandScale v s) = v /\
    hand (setHandScale v s) = option_map (Node.setScale v) (hand s) /\
    getHandScale (setHandScaleUniform k s) = Vec3.new k k k /\
    getHandOffset (setHandOffset v s) = v /\
    getHandOffset (setHandOffsetXY x y s)
    = Vec3.new x y (Vec3.z (getHandOffset s)) /\
    inactivityDelay (props (setInactivityDelay seconds s)) = seconds /\
    inactivityTime (setInactivityDelay seconds s) = 0%float /\
    (forall f, In f [setHandScale v; setHandScaleUniform k; setHandOffset v;
                     setHandOffsetXY x y; setInactivityDelay seconds] ->
       isActive (f s) = isActive s /\ engine (f s) = engine s /\
       emitted (trace (f s)) = emitted (trace s)).
Proof.
  intros s v k x y seconds.
  assert (Last : forall f,
             In f [setHandScale v; setHandScaleUniform k; setHandOffset v;
                   setHandOffsetXY x y; setInactivityDelay seconds] ->
             isActive (f s) = isActive s /\ engine (f s) = engine s /\
             emitted (trace (f s)) = emitted (trace s)).
  { intros f [<-|[<-|[<-|[<-|[<-|[]]]]]];
      unfold setHandScaleUniform, setHandScale, setHandOffset, setHandOffsetXY,
        setInactivityDelay, resetInactivityTimer, console, effect, emitted;
      destruct s as [p [h|] ti ac r c e tr]; cbn;
      rewrite ?filter_app; cbn; rewrite ?app_nil_r; repeat split. }
  unfold getHandScale, getHandOffset, setHandScaleUniform, setHandScale,
    setHandOffset, setHandOffsetXY, setInactivityDelay, resetInactivityTimer,
    console, effect.
  destruct s as [p [h|] ti ac r c e tr]; destruct v as [vx vy vz]; cbn;
    (split; [reflexivity|]); (split; [reflexivity|]); (split; [reflexivity|]);
    (split; [reflexivity|]); (split; [reflexivity|]); (split; [reflexivity|]);
    (split; [reflexivity|]); exact Last.
Qed.

Lemma configuration_reads_back_witness :
  isActive (setHandOffsetXY 1 2 an_active_session) = true /\
  getHandOffset (setHandOffsetXY 1 2 (setHandOffset (Vec3.new 7 8 9) a_ready_component))
  = Vec3.new 1 2 9.
Proof.
  split.
  - apply (proj2 (proj2 (proj2 (proj2 (proj2 (proj2 (proj2
             (configuration_reads_back an_active_session (Vec3.new 0 0 0)
                1 1 2 15)))))))
             (setHandOffsetXY 1 2)).
    right. right. right. left. reflexivity.
  - exact (proj1 (proj2 (proj2 (proj2 (proj2
             (configuration_reads_back
                (setHandOffset (Vec3.new 7 8 9) a_ready_component)
                (Vec3.new 0 0 0) 1 1 2 15)))))).
Defined.
